(** * ProxyCheck SDK: request engine, error taxonomy and option merger

    A shallow embedding of [src/errors/index.ts], [src/http/index.ts] and
    the pure helpers of [src/config/index.ts], with the properties of the
    retry loop, the rate-limit bookkeeping and the option merger.

    Conventions of the embedding.
    - A string is the sequence of the bytes of its UTF-8 encoding; white
      space is recognised in that encoding, whatever its length in bytes.
    - Integer-valued JavaScript numbers (status codes, parsed header
      values, attempt indices, retry counts) are [Z]; the result of
      [Number.parseInt], which may be [NaN], is a [JsNumber].  A number
      that the code computes, by parsing or by a product such as
      [retryAfter * 1000], is rounded to the nearest double
      ([Double.ofZ]); below 2^53 nothing is rounded.  [-0] is not told
      from [0].  There is no infinite number: a digit string that denotes
      2^1024 or more is outside the embedding, and the statements that
      give a parsed value say so ([finiteNumber]).
    - The jittered backoff delay is the one fractional computation of the
      engine.  It is modelled with the rounding of IEEE-754 binary64
      ([fl], round to nearest, ties to even, subnormals included and the
      exponent unbounded above), on rationals.
    - A [Date] is its time value in milliseconds, [NaN] for the invalid
      date, which [new Date] gives beyond 8.64e15 ms on either side.
    - Header bags are finite maps from the lower-cased header name to the
      value, as axios hands them over.
    - A promise that rejects and a function that throws are values of an
      outcome type; the mutable fields of [HttpClient] are threaded as a
      state.  A sleep is recorded with the delay handed to [setTimeout]. *)

From Stdlib Require Import Ascii String ZArith QArith Qround Qabs Qpower Floats Lia Lqa.
From stdpp Require Import gmap strings.

Local Open Scope string_scope.
Local Open Scope Z_scope.

(** ** Double-precision rounding

    [fl q] is the binary64 number nearest to the rational [q], ties to
    even.  A double is an integer multiple of 2^-1074; in those units the
    spacing around [s] is [2 ^ shift s], which is 1 in the subnormal
    range. *)
Module Double.
Local Open Scope Q_scope.

(** Round to the nearest integer, ties to even. *)
Definition rne (t : Q) : Z :=
  let f := Qfloor t in
  match Qcompare (t - inject_Z f) (1 # 2) with
  | Lt => f
  | Eq => if Z.even f then f else (f + 1)%Z
  | Gt => (f + 1)%Z
  end.

Definition scale : Q := inject_Z (2 ^ 1074).

Definition shift (s : Q) : Z := Z.max 0 (Z.log2 (Qfloor s) - 52).

Definition roundScaled (s : Q) : Z :=
  let e := shift s in
  (rne (s / inject_Z (2 ^ e)) * 2 ^ e)%Z.

Definition flAbs (q : Q) : Q := inject_Z (roundScaled (q * scale)) / scale.

Definition fl (q : Q) : Q :=
  if Qle_bool 0 q then flAbs q else - flAbs (- q).

(** [q] is a double. *)
Definition representable (q : Q) : Prop := fl q == q.

(** The double nearest to an integer; it is an integer. *)
Definition ofZ (z : Z) : Z := Qfloor (fl (inject_Z z)).

End Double.

(** ** JavaScript values *)

(** A number that is an integer or [NaN]. *)
Inductive JsNumber :=
| NaN
| Int (z : Z).

(** Truthiness of a number: [NaN] and [0] are falsy. *)
Definition truthyNumber (n : JsNumber) : bool :=
  match n with
  | NaN => false
  | Int z => negb (z =? 0)
  end.

(** [n * k] for an integer constant [k]: the product of two doubles,
    rounded. *)
Definition mulNumber (n : JsNumber) (k : Z) : JsNumber :=
  match n with
  | NaN => NaN
  | Int z => Int (Double.ofZ (z * k))
  end.

(** A [Date], as its time value; [NaN] is the invalid date. *)
Definition Date := JsNumber.

(** [new Date(ms)]: the time value is clipped, a number beyond
    8.64e15 ms on either side gives the invalid date. *)
Definition newDate (ms : JsNumber) : Date :=
  match ms with
  | NaN => NaN
  | Int t => if Z.abs t <=? 8640000000000000 then Int t else NaN
  end.

(** Truthiness of a string: only the empty string is falsy. *)
Definition truthyString (s : string) : bool :=
  match s with
  | EmptyString => false
  | String _ _ => true
  end.

(** ** [Number.parseInt(s, 10)] *)

(** White space and line terminators of one byte: TAB, LF, VT, FF, CR
    and the space. *)
Definition isWhiteSpace (c : ascii) : bool :=
  let n := Z.of_N (N_of_ascii c) in
  ((9 <=? n) && (n <=? 13)) || (n =? 32).

(** Of two bytes: U+00A0. *)
Definition isWhiteSpace2 (c d : ascii) : bool :=
  (Z.of_N (N_of_ascii c) =? 194) && (Z.of_N (N_of_ascii d) =? 160).

(** Of three bytes: U+1680, U+2000 to U+200A, U+2028, U+2029, U+202F,
    U+205F, U+3000 and U+FEFF. *)
Definition isWhiteSpace3 (c d e : ascii) : bool :=
  let x := Z.of_N (N_of_ascii c) in
  let y := Z.of_N (N_of_ascii d) in
  let z := Z.of_N (N_of_ascii e) in
  ((x =? 225) && (y =? 154) && (z =? 128)) ||
  ((x =? 226) && (y =? 128) &&
   (((128 <=? z) && (z <=? 138)) || (z =? 168) || (z =? 169) || (z =? 175))) ||
  ((x =? 226) && (y =? 129) && (z =? 159)) ||
  ((x =? 227) && (y =? 128) && (z =? 128)) ||
  ((x =? 239) && (y =? 187) && (z =? 191)).

(** The string without its leading white space, as [parseInt] and
    [trim] skip it. *)
Fixpoint trimStart (s : string) : string :=
  match s with
  | String c rest =>
      if isWhiteSpace c then trimStart rest
      else
        match rest with
        | String d rest' =>
            if isWhiteSpace2 c d then trimStart rest'
            else
              match rest' with
              | String e rest'' =>
                  if isWhiteSpace3 c d e then trimStart rest'' else s
              | EmptyString => s
              end
        | EmptyString => s
        end
  | EmptyString => EmptyString
  end.

Definition digitValue (c : ascii) : option Z :=
  let n := Z.of_N (N_of_ascii c) in
  if (48 <=? n) && (n <=? 57) then Some (n - 48) else None.

(** The longest prefix of decimal digits, as a number; [None] when the
    prefix is empty. *)
Fixpoint parseDigits (s : string) (acc : option Z) : option Z :=
  match s with
  | String c rest =>
      match digitValue c with
      | Some d => parseDigits rest (Some (10 * default 0 acc + d))
      | None => acc
      end
  | EmptyString => acc
  end.

Definition parseInt (s : string) : JsNumber :=
  let trimmed := trimStart s in
  let '(sign, body) :=
    match trimmed with
    | String "-" rest => (-1, rest)
    | String "+" rest => (1, rest)
    | _ => (1, trimmed)
    end in
  match parseDigits body None with
  | Some n => Int (Double.ofZ (sign * n))
  | None => NaN
  end.

(** ** Headers *)

Abbreviation Headers := (gmap string string).

(** [headers[name]] is truthy. *)
Definition headerPresent (headers : Headers) (name : string) : bool :=
  match headers !! name with
  | Some v => truthyString v
  | None => false
  end.

(** [headers[name] || fallback]. *)
Definition headerOr (headers : Headers) (name fallback : string) : string :=
  match headers !! name with
  | Some v => if truthyString v then v else fallback
  | None => fallback
  end.

(** ** Error taxonomy ([src/errors/index.ts]) *)

Module ERROR_CODES.
Definition INVALID_INPUT := "INVALID_INPUT".
Definition API_ERROR := "API_ERROR".
Definition NETWORK_ERROR := "NETWORK_ERROR".
Definition RATE_LIMIT := "RATE_LIMIT".
Definition AUTHENTICATION_ERROR := "AUTHENTICATION_ERROR".
Definition VALIDATION_ERROR := "VALIDATION_ERROR".
Definition TIMEOUT_ERROR := "TIMEOUT_ERROR".
End ERROR_CODES.

(** The body of a response, typed [unknown] in the source.  Reading a
    property of [null] or [undefined] throws; reading one of a primitive
    gives [undefined]; an object has or lacks the string fields [message]
    and [error] (a field that is not a string is not modelled). *)
Inductive JsData :=
| DNullish
| DPrimitive (text : string)
| DObject (message : option string) (error : option string).

Record Response := mkResponse {
  status : Z;
  data : JsData;
  headers : Headers
}.

(** What the transport rejects with: an axios error object.  [response]
    is [Some] when the key is present; [hasRequest] tells whether the key
    [request] is present. *)
Record RawError := mkRawError {
  response : option Response;
  rawCode : option string;
  rawMessage : option string;
  rawTimeout : option Z;
  hasRequest : bool;
  instanceofError : bool
}.

Inductive ProxyCheckError :=
| Base (message code : string) (statusCode : option Z)
| APIError (message : string) (statusCode : Z)
    (body : option JsData) (requestId : option string)
| ValidationError (message : string) (field : option string)
    (validationErrors : option (list (string * string)))
| RateLimitError (message : string) (limit remaining : JsNumber)
    (reset : Date) (retryAfter : JsNumber)
| NetworkError (message : string) (originalError : option RawError)
| AuthenticationError (message : string)
| TimeoutError (message : string) (timeout : Z).

(** The [code] field each constructor passes to [super]. *)
Definition errorCode (e : ProxyCheckError) : string :=
  match e with
  | Base _ code _ => code
  | APIError _ _ _ _ => ERROR_CODES.API_ERROR
  | ValidationError _ _ _ => ERROR_CODES.VALIDATION_ERROR
  | RateLimitError _ _ _ _ _ => ERROR_CODES.RATE_LIMIT
  | NetworkError _ _ => ERROR_CODES.NETWORK_ERROR
  | AuthenticationError _ => ERROR_CODES.AUTHENTICATION_ERROR
  | TimeoutError _ _ => ERROR_CODES.TIMEOUT_ERROR
  end.

(** The [statusCode] field, set only when the constructor passes one. *)
Definition errorStatusCode (e : ProxyCheckError) : option Z :=
  match e with
  | Base _ _ sc => sc
  | APIError _ sc _ _ => Some sc
  | RateLimitError _ _ _ _ _ => Some 429
  | AuthenticationError _ => Some 401
  | ValidationError _ _ _ | NetworkError _ _ | TimeoutError _ _ => None
  end.

(** Decimal rendering of a status code inside a template string. *)
Definition digitChar (d : Z) : ascii := ascii_of_N (Z.to_N (48 + d)).

Fixpoint showDigits (fuel : nat) (n : Z) (acc : string) : string :=
  match fuel with
  | O => acc
  | S fuel' =>
      let acc' := String (digitChar (n mod 10)) acc in
      if n <? 10 then acc' else showDigits fuel' (n / 10) acc'
  end.

Definition showZ (n : Z) : string :=
  if n <? 0 then String "-" (showDigits (Z.to_nat (Z.log2 (- n)) + 1) (- n) "")
  else showDigits (Z.to_nat (Z.log2 n) + 1) n "".

(** A function of the error module either returns or throws a
    [TypeError]. *)
Inductive Completion (A : Type) :=
| Returned (a : A)
| ThrowsTypeError.
Arguments Returned {A} a.
Arguments ThrowsTypeError {A}.

(** [a || b] on optional strings, [undefined] and the empty string being
    falsy. *)
Definition orString (a : option string) (b : string) : string :=
  match a with
  | Some s => if truthyString s then s else b
  | None => b
  end.

(** [ProxyCheckAPIError.fromResponse]: the message is
    [response.message || response.error || `API error: ${statusCode}`]. *)
Definition fromResponse (statusCode : Z) (body : JsData)
    (requestId : option string) : Completion ProxyCheckError :=
  let fallback := "API error: " +:+ showZ statusCode in
  match body with
  | DNullish => ThrowsTypeError
  | DPrimitive _ => Returned (APIError fallback statusCode (Some body) requestId)
  | DObject message error =>
      Returned (APIError (orString message (orString error fallback))
                  statusCode (Some body) requestId)
  end.

(** [String.prototype.includes] for a fixed needle, by prefix test at
    every position. *)
Fixpoint includes (needle s : string) : bool :=
  String.prefix needle s ||
  match s with
  | String _ rest => includes needle rest
  | EmptyString => false
  end.

Definition createErrorFromResponse (error : RawError)
    : Completion ProxyCheckError :=
  match response error with
  | Some resp =>
      let h := headers resp in
      if status resp =? 429 then
        let limit := parseInt (headerOr h "x-ratelimit-limit" "0") in
        let remaining := parseInt (headerOr h "x-ratelimit-remaining" "0") in
        let reset :=
          newDate (mulNumber (parseInt (headerOr h "x-ratelimit-reset" "0")) 1000) in
        let retryAfter := parseInt (headerOr h "retry-after" "60") in
        Returned (RateLimitError "Rate limit exceeded" limit remaining reset retryAfter)
      else if status resp =? 401 then
        let message :=
          match data resp with
          | DObject (Some m) _ => m
          | _ => "Authentication failed"
          end in
        Returned (AuthenticationError message)
      else fromResponse (status resp) (data resp) (h !! "x-request-id")
  | None =>
      if decide (rawCode error = Some "ECONNABORTED") then
        Returned (TimeoutError "Request timed out" (default 0 (rawTimeout error)))
      else if match rawMessage error with
              | Some m => includes "timeout" m
              | None => false
              end then
        Returned (TimeoutError "Request timed out" 0)
      else if hasRequest error then
        Returned (NetworkError "Network error occurred"
                    (if instanceofError error then Some error else None))
      else
        Returned (Base (default "An unknown error occurred" (rawMessage error))
                    ERROR_CODES.API_ERROR None)
  end.

(** Type guards: [instanceof] tests on a caught value, which in the
    source is [unknown].  A caught value is [undefined] (the initial
    [lastError]), one of the SDK's errors, or a foreign object, of which
    only a numeric [statusCode] and a string [code] are ever inspected. *)
Inductive Thrown :=
| ThUndefined
| ThError (e : ProxyCheckError)
| ThForeign (statusCode : option Z) (code : option string).

(** The [TypeError] raised by reading a property of [null]: no
    [statusCode], no [code]. *)
Definition typeError : Thrown := ThForeign None None.

Definition isProxyCheckError (error : Thrown) : bool :=
  match error with
  | ThError _ => true
  | _ => false
  end.

Definition isRateLimitError (error : Thrown) : bool :=
  match error with
  | ThError (RateLimitError _ _ _ _ _) => true
  | _ => false
  end.

Definition isValidationError (error : Thrown) : bool :=
  match error with
  | ThError (ValidationError _ _ _) => true
  | _ => false
  end.

(** [error.statusCode] when it is a number, [error.code] when present. *)
Definition thrownStatusCode (error : Thrown) : option Z :=
  match error with
  | ThUndefined => None
  | ThError e => errorStatusCode e
  | ThForeign sc _ => sc
  end.

Definition thrownCode (error : Thrown) : option string :=
  match error with
  | ThUndefined => None
  | ThError e => Some (errorCode e)
  | ThForeign _ code => code
  end.

(** ** Request execution engine ([src/http/index.ts]) *)

Module DEFAULTS.
Definition BASE_URL := "proxycheck.io".
Definition TIMEOUT := 30000.
Definition RETRIES := 3.
Definition RETRY_DELAY : Q := 1000%Q.
Definition TLS_SECURITY := true.
Definition USER_AGENT := "proxycheck-sdk/0.9.0".
End DEFAULTS.

(** The [ClientConfig] a caller passes to the constructor. *)
Module ClientConfig.
Record t := mk {
  apiKey : string;
  baseUrl : option string;
  timeout : option Z;
  retries : option Z;
  retryDelay : option Q;
  tlsSecurity : option bool;
  userAgent : option string
}.
End ClientConfig.

(** [this._config]: every field resolved. *)
Record Config := mkConfig {
  baseUrl : string;
  timeout : Z;
  retries : Z;
  retryDelay : Q;
  tlsSecurity : bool;
  userAgent : string;
  apiKey : string
}.

Record RateLimitInfo := mkRateLimitInfo {
  limit : JsNumber;
  remaining : JsNumber;
  reset : Date;
  retryAfter : JsNumber
}.

(** The mutable part of an [HttpClient] next to its configuration. *)
Record HttpClient := mkHttpClient {
  _config : Config;
  _rateLimitInfo : option RateLimitInfo
}.

(** [a || d] on an optional number: [undefined] and [0] are falsy. *)
Definition orZ (a : option Z) (d : Z) : Z :=
  match a with
  | Some z => if z =? 0 then d else z
  | None => d
  end.

Definition orQ (a : option Q) (d : Q) : Q :=
  match a with
  | Some q => if Qeq_bool q 0 then d else q
  | None => d
  end.

(** The constructor. *)
Definition newHttpClient (config : ClientConfig.t) : HttpClient :=
  {| _config :=
       {| baseUrl := orString (ClientConfig.baseUrl config) DEFAULTS.BASE_URL;
          timeout := orZ (ClientConfig.timeout config) DEFAULTS.TIMEOUT;
          retries := orZ (ClientConfig.retries config) DEFAULTS.RETRIES;
          retryDelay := orQ (ClientConfig.retryDelay config) DEFAULTS.RETRY_DELAY;
          tlsSecurity := default DEFAULTS.TLS_SECURITY (ClientConfig.tlsSecurity config);
          userAgent := orString (ClientConfig.userAgent config) DEFAULTS.USER_AGENT;
          apiKey := ClientConfig.apiKey config |};
     _rateLimitInfo := None |}.

Definition updateRateLimitInfo (resp : Response) (this : HttpClient)
    : HttpClient :=
  let h := headers resp in
  if headerPresent h "x-ratelimit-limit" then
    {| _config := _config this;
       _rateLimitInfo := Some
         {| limit := parseInt (default "" (h !! "x-ratelimit-limit"));
            remaining := parseInt (headerOr h "x-ratelimit-remaining" "0");
            reset := newDate (mulNumber (parseInt (headerOr h "x-ratelimit-reset" "0")) 1000);
            retryAfter := parseInt (headerOr h "retry-after" "0") |} |}
  else this.

Definition getRateLimitInfo (this : HttpClient) : option RateLimitInfo :=
  _rateLimitInfo this.

(** [baseDelay * 2 ** attempt + Math.random() * 1000], each operation
    rounded; [rnd] is the value [Math.random()] returned. *)
Definition calculateDelay (attempt : Z) (baseDelay rnd : Q) : Q :=
  Double.fl (Double.fl (baseDelay * 2 ^ attempt) + Double.fl (rnd * 1000))%Q.

Definition isRetryableError (error : Thrown) : bool :=
  let byCode :=
    match thrownCode error with
    | Some code =>
        bool_decide (code = ERROR_CODES.NETWORK_ERROR) ||
        bool_decide (code = ERROR_CODES.TIMEOUT_ERROR)
    | None => false
    end in
  match thrownStatusCode error with
  | Some statusCode =>
      if (400 <=? statusCode) && (statusCode <? 500) then isRateLimitError error
      else if 500 <=? statusCode then true
      else byCode
  | None => byCode
  end.

(** *** The transport and the retry loop

    The logger is optional in the source; the trace records each log
    call as made.

    A [World] fixes what the outside does: the raw outcome of the k-th
    transport call, before the response interceptor runs, and the value
    of the k-th call of [Math.random()].  A [Run] is the engine's side:
    the client, the number of transport calls and random draws made so
    far, and the trace of sleeps and log calls. *)

Inductive RawOutcome :=
| Fulfilled (resp : Response)
| Failed (err : RawError).

Record World := mkWorld {
  transport : nat -> RawOutcome;
  random : nat -> Q
}.

Inductive LogLevel := LogDebug | LogInfo | LogWarn | LogError.

Inductive Event :=
| EvTransport (call : nat)
| EvSleep (ms : Q)
| EvLog (level : LogLevel) (message : string).

Record Run := mkRun {
  client : HttpClient;
  calls : nat;
  draws : nat;
  trace : list Event
}.

Definition emit (ev : Event) (r : Run) : Run :=
  {| client := client r; calls := calls r; draws := draws r;
     trace := trace r ++ [ev] |}.

Definition log (level : LogLevel) (message : string) (r : Run) : Run :=
  emit (EvLog level message) r.

(** [sleep(ms)]: the event records the delay handed to [setTimeout]. *)
Definition sleep (ms : Q) (r : Run) : Run := emit (EvSleep ms) r.

Definition mathRandom (w : World) (r : Run) : Q * Run :=
  (random w (draws r),
   {| client := client r; calls := calls r; draws := S (draws r);
      trace := trace r |}).

(** [this._axios.request(config)]: one transport call followed by the
    response interceptor.  A fulfilled response updates the rate-limit
    snapshot; a failure updates it when it carries a response, and is
    rejected with what [createErrorFromResponse] returns, or with the
    [TypeError] it throws. *)
Definition axiosRequest (w : World) (r : Run) : (Response + Thrown) * Run :=
  let sent :=
    {| client := client r; calls := S (calls r); draws := draws r;
       trace := trace r ++ [EvTransport (calls r)] |} in
  let intercepted (resp : Response) :=
    {| client := updateRateLimitInfo resp (client sent); calls := calls sent;
       draws := draws sent; trace := trace sent |} in
  match transport w (calls r) with
  | Fulfilled resp => (inl resp, intercepted resp)
  | Failed err =>
      let after :=
        match response err with
        | Some resp => intercepted resp
        | None => sent
        end in
      match createErrorFromResponse err with
      | Returned e => (inr (ThError e), after)
      | ThrowsTypeError => (inr typeError, after)
      end
  end.

(** [error.retryAfter] of a caught value narrowed by the type guard. *)
Definition thrownRetryAfter (error : Thrown) : JsNumber :=
  match error with
  | ThError (RateLimitError _ _ _ _ retryAfter) => retryAfter
  | _ => NaN
  end.

(** Lines 196-201 of [request]: the delay before the next attempt. *)
Definition retryDelayFor (this : HttpClient) (attempt : Z) (error : Thrown)
    (rnd : Q) : Q :=
  let delay := calculateDelay attempt (retryDelay (_config this)) rnd in
  if isRateLimitError error && truthyNumber (thrownRetryAfter error) then
    match mulNumber (thrownRetryAfter error) 1000 with
    | Int ms => inject_Z ms
    | NaN => delay
    end
  else delay.

Inductive Outcome :=
| Resolves (body : JsData)
| Rejects (error : Thrown)
| OutOfFuel.

(** The code after the loop: log, then [throw lastError]. *)
Definition failTerminal (lastError : Thrown) (r : Run) : Outcome * Run :=
  (Rejects lastError, log LogError "HTTP request failed after all retries" r).

(** The [for] loop of [request], one iteration per unit of fuel. *)
Fixpoint requestLoop (w : World) (fuel : nat) (attempt : Z)
    (lastError : Thrown) (r : Run) : Outcome * Run :=
  match fuel with
  | O => (OutOfFuel, r)
  | S fuel' =>
      if attempt <=? retries (_config (client r)) then
        match axiosRequest w r with
        | (inl resp, r1) =>
            (Resolves (data resp), log LogInfo "HTTP request completed" r1)
        | (inr error, r1) =>
            if attempt =? retries (_config (client r1)) then
              failTerminal error r1
            else if negb (isRetryableError error) then
              failTerminal error r1
            else
              let '(rnd, r2) := mathRandom w r1 in
              let delay := retryDelayFor (client r2) attempt error rnd in
              let r3 := log LogWarn "HTTP request failed, retrying" r2 in
              requestLoop w fuel' (attempt + 1) error (sleep delay r3)
        end
      else failTerminal lastError r
  end.

(** [request]: the request id draws one random number; the loop gets
    one unit of fuel per possible attempt and one for the final test of
    the loop condition. *)
Definition request (w : World) (r : Run) : Outcome * Run :=
  let '(_, r0) := mathRandom w r in
  let r1 := log LogDebug "HTTP request starting" r0 in
  requestLoop w (S (Z.to_nat (retries (_config (client r1)) + 1))) 0
    ThUndefined r1.

(** The delays awaited during a run, in order. *)
Definition sleeps (tr : list Event) : list Q :=
  omap (fun ev => match ev with EvSleep ms => Some ms | _ => None end) tr.

(** A fresh run of a client. *)
Definition start (this : HttpClient) : Run :=
  {| client := this; calls := 0; draws := 0; trace := [] |}.

(** ** Option merger ([src/config/index.ts]) *)

Module OptionMerger.

Record ProxyCheckOptions := mkOptions {
  apiKey : option string;
  asnData : option bool;
  allowedCountries : option (list string);
  blockedCountries : option (list string);
  tlsSecurity : option bool;
  infEngine : option bool;
  riskData : option Z;
  vpnDetection : option Z;
  dayRestrictor : option Q;
  queryTagging : option bool;
  customTag : option string;
  maskAddress : option bool
}.

Record PostData := mkPostData {
  ips : option string;
  tag : option string
}.

(** The argument typed [string | Array<string>]. *)
Inductive Addresses :=
| One (address : string)
| Many (addresses : list string).

(** [Array.prototype.join(",")]. *)
Definition join (l : list string) : string := String.concat "," l.

Definition buildPostData (options : ProxyCheckOptions)
    (addresses : option Addresses) : PostData :=
  let ips :=
    match addresses with
    | Some (Many l) => if (1 <? length l)%nat then Some (join l) else None
    | _ => None
    end in
  let tag :=
    match queryTagging options, customTag options with
    | Some true, Some t => if truthyString t then Some t else None
    | _, _ => None
    end in
  {| ips := ips; tag := tag |}.

Definition shouldUsePostMethod (addresses : option Addresses) : bool :=
  match addresses with
  | Some (Many l) => (1 <? length l)%nat
  | _ => false
  end.

(** [String.prototype.split] on a one-character separator. *)
Fixpoint split (sep : ascii) (s : string) : list string :=
  match s with
  | EmptyString => [EmptyString]
  | String c rest =>
      if Ascii.eqb c sep then EmptyString :: split sep rest
      else match split sep rest with
           | piece :: pieces => String c piece :: pieces
           | [] => [String c EmptyString]
           end
  end.

(** The inner [maskEmail]: [const [, domain] = address.split("@")]. *)
Definition maskEmail (address : string) : string :=
  if includes "@" address then
    match split "@" address with
    | _ :: domain :: _ => "anonymous@" +:+ domain
    | _ => "anonymous@undefined"
    end
  else address.

Definition processAddresses (addresses : Addresses) (maskAddress : bool)
    : Addresses :=
  if negb maskAddress then addresses
  else match addresses with
       | Many l => Many (map maskEmail l)
       | One a => One (maskEmail a)
       end.

(** [x && x.length > 0] on an optional array. *)
Definition nonEmptyList (l : option (list string)) : bool :=
  match l with
  | Some l => (0 <? length l)%nat
  | None => false
  end.

Definition mergeCountryOptions (options : ProxyCheckOptions)
    : ProxyCheckOptions :=
  let merged := options in
  if nonEmptyList (allowedCountries options) ||
     nonEmptyList (blockedCountries options)
  then {| apiKey := apiKey merged;
          asnData := Some true;
          allowedCountries := allowedCountries merged;
          blockedCountries := blockedCountries merged;
          tlsSecurity := tlsSecurity merged;
          infEngine := infEngine merged;
          riskData := riskData merged;
          vpnDetection := vpnDetection merged;
          dayRestrictor := dayRestrictor merged;
          queryTagging := queryTagging merged;
          customTag := customTag merged;
          maskAddress := maskAddress merged |}
  else merged.

End OptionMerger.

(** ** Concrete scenarios *)

Definition minimalConfig : ClientConfig.t :=
  ClientConfig.mk "test-api-key" None None None None None None.

(** A client built with the defaults: 3 retries, base delay 1000 ms. *)
Definition defaultClient : HttpClient := newHttpClient minimalConfig.

Definition okResponse : Response :=
  mkResponse 200 (DObject None None) ∅.

(** A failure that carries a response. *)
Definition failureWith (resp : Response) : RawError :=
  mkRawError (Some resp) (Some "ERR_BAD_RESPONSE")
    (Some "Request failed") None true true.

(** A 429 whose only header is [retry-after]. *)
Definition rateLimited (retryAfterHeader : string) : RawError :=
  failureWith (mkResponse 429 (DObject (Some "Too many requests") None)
                 {[ "retry-after" := retryAfterHeader ]}).

(** The world in which the first call is answered by [first] and every
    later call succeeds, with [Math.random()] constant. *)
Definition failOnce (first : RawError) (rnd : Q) : World :=
  mkWorld (fun k => match k with O => Failed first | S _ => Fulfilled okResponse end)
          (fun _ => rnd).

(** The world in which every call fails the same way. *)
Definition failAlways (err : RawError) (rnd : Q) : World :=
  mkWorld (fun _ => Failed err) (fun _ => rnd).

(** A 500 whose JSON body is the literal [null]. *)
Definition nullBody500 : RawError :=
  failureWith (mkResponse 500 DNullish ∅).

(** The largest value [Math.random()] takes on a 52-bit generator. *)
Definition maxRandom : Q := (1 - 1 / inject_Z (2 ^ 52))%Q.

(** U+00A0 and U+3000, white space of two and of three bytes. *)
Definition noBreakSpace : string := String "194" (String "160" EmptyString).

Definition ideographicSpace : string :=
  String "227" (String "128" (String "128" EmptyString)).

(** ** Vocabulary of the statements *)

(** The code of a network or timeout error. *)
Definition retryCode (code : string) : Prop :=
  code = ERROR_CODES.NETWORK_ERROR \/ code = ERROR_CODES.TIMEOUT_ERROR.

(** The error carries a numeric 4xx status code. *)
Definition clientErrorStatus (error : Thrown) : Prop :=
  exists statusCode, thrownStatusCode error = Some statusCode /\
                     400 <= statusCode < 500.

(** The header [name] parsed as an integer, [fallback] when the header
    is missing or empty. *)
Definition headerNumber (h : Headers) (name : string) (fallback : Z)
    : JsNumber :=
  match h !! name with
  | Some v => if truthyString v then parseInt v else Int fallback
  | None => Int fallback
  end.

(** The number is finite in the code: below 2^1024 in magnitude, where
    the rounding of a double overflows. *)
Definition finiteNumber (n : JsNumber) : Prop :=
  match n with
  | NaN => True
  | Int z => Z.abs z < 2 ^ 1024
  end.

(** The delays for which a timer waits as long as it is told: from 1 to
    2^31 - 1 milliseconds. *)
Definition timerRange (ms : Q) : Prop := (1 <= ms <= 2147483647)%Q.

(** One of the four rate-limit headers of the wire contract is present. *)
Definition carriesRateLimitInformation (h : Headers) : bool :=
  headerPresent h "x-ratelimit-limit" ||
  headerPresent h "x-ratelimit-remaining" ||
  headerPresent h "x-ratelimit-reset" ||
  headerPresent h "retry-after".

(** The response of a transport outcome, if it has one. *)
Definition responseOf (o : RawOutcome) : option Response :=
  match o with
  | Fulfilled resp => Some resp
  | Failed err => response err
  end.

(** Every failure of the world that carries a response on the generic
    path (neither 429 nor 401) has a body that is not [null] or
    [undefined]. *)
Definition bodiesReadable (w : World) : Prop :=
  forall k err resp,
    transport w k = Failed err -> response err = Some resp ->
    status resp = 429 \/ status resp = 401 \/ data resp <> DNullish.

(** The three transitions of one attempt of the state machine: success,
    terminal failure (last attempt, or error not retryable), or a sleep
    followed by the next attempt index. *)
Definition attemptTransition (w : World) (fuel : nat) (attempt : Z)
    (lastError : Thrown) (r : Run) : Prop :=
  (exists resp r1,
      axiosRequest w r = (inl resp, r1) /\
      requestLoop w (S fuel) attempt lastError r
      = (Resolves (data resp), log LogInfo "HTTP request completed" r1)) \/
  (exists error r1,
      axiosRequest w r = (inr error, r1) /\
      (attempt = retries (_config (client r))
       \/ isRetryableError error = false) /\
      requestLoop w (S fuel) attempt lastError r = failTerminal error r1) \/
  (exists error r1,
      axiosRequest w r = (inr error, r1) /\
      attempt < retries (_config (client r)) /\
      isRetryableError error = true /\
      requestLoop w (S fuel) attempt lastError r
      = requestLoop w fuel (attempt + 1) error
          (sleep (retryDelayFor (client r1) attempt error (random w (draws r1)))
             (log LogWarn "HTTP request failed, retrying"
                (snd (mathRandom w r1))))).

(** The rational value of one of the kernel's binary64 numbers, to
    compare [Double.fl] with the hardware arithmetic. *)
Definition ofDouble (f : float) : option Q :=
  match Prim2SF f with
  | S754_zero _ => Some 0%Q
  | S754_finite negative m e =>
      Some ((if negative then -1 else 1) * inject_Z (Z.pos m) * 2 ^ e)%Q
  | _ => None
  end.

Definition sameNumber (f : float) (q : Q) : bool :=
  match ofDouble f with
  | Some q' => Qeq_bool q' q
  | None => false
  end.

(** The domain of an address: what follows its last [@]. *)
Definition domainPart (address : string) : string :=
  List.last (OptionMerger.split "@" address) EmptyString.

(** The number of occurrences of [@]. *)
Fixpoint countAt (s : string) : nat :=
  match s with
  | EmptyString => O
  | String c rest => (if Ascii.eqb c "@" then 1 else 0) + countAt rest
  end.

(** ** Further vocabulary: the engine *)

(** What the response interceptor rejects with for a raw failure: the
    classified error, or the [TypeError] the classifier throws. *)
Definition rejectionOf (err : RawError) : Thrown :=
  match createErrorFromResponse err with
  | Returned e => ThError e
  | ThrowsTypeError => typeError
  end.

(** A raw failure without response carries a timeout indicator. *)
Definition timeoutIndicator (err : RawError) : Prop :=
  rawCode err = Some "ECONNABORTED" \/
  exists m, rawMessage err = Some m /\ includes "timeout" m = true.


(** *** Form bodies ([postForm])

    [URLSearchParams.prototype.toString]: the
    application/x-www-form-urlencoded serializer, on the UTF-8 bytes of
    the string.  A space becomes [+]; letters, digits, [*], [-], [.] and
    [_] stay; every other byte becomes [%XX] in upper-case hexadecimal. *)

Definition hexDigit (n : N) : ascii :=
  ascii_of_N (if (n <? 10)%N then 48 + n else 55 + n).

Definition formSafe (c : ascii) : bool :=
  let n := N_of_ascii c in
  ((48 <=? n) && (n <=? 57) || (65 <=? n) && (n <=? 90) ||
   (97 <=? n) && (n <=? 122) ||
   (n =? 42) || (n =? 45) || (n =? 46) || (n =? 95))%N.

Fixpoint formEncode (s : string) : string :=
  match s with
  | EmptyString => EmptyString
  | String c rest =>
      if Ascii.eqb c " " then String "+" (formEncode rest)
      else if formSafe c then String c (formEncode rest)
      else String "%"
             (String (hexDigit (N_of_ascii c / 16))
                (String (hexDigit (N_of_ascii c mod 16)) (formEncode rest)))
  end.

(** The serialized list of name-value pairs. *)
Definition formToString (pairs : list (string * string)) : string :=
  String.concat "&"
    (map (fun kv => formEncode (fst kv) +:+ "=" +:+ formEncode (snd kv)) pairs).

(** The entries of [data] that [postForm] appends: those whose value is
    neither [undefined] nor [null].  [data] is given by its entries, in
    the order of [Object.entries]. *)
Definition appendedEntries (data : list (string * option string))
    : list (string * string) :=
  omap (fun kv => match snd kv with
                  | Some v => Some (fst kv, v)
                  | None => None
                  end) data.

(** The body [postForm] hands to [request]. *)
Definition postFormBody (data : option (list (string * option string)))
    : string :=
  match data with
  | Some entries => formToString (appendedEntries entries)
  | None => EmptyString
  end.

(** The headers of a [postForm] request: the form content type, which a
    caller's own [Content-Type] replaces. *)
Definition postFormHeaders (headers : option Headers) : Headers :=
  match headers with
  | Some h => h ∪ {[ "Content-Type" := "application/x-www-form-urlencoded" ]}
  | None => {[ "Content-Type" := "application/x-www-form-urlencoded" ]}
  end.

(** The inverse of the serializer, used to show that a body is read
    back without ambiguity. *)
Definition hexValue (c : ascii) : option N :=
  let n := N_of_ascii c in
  if ((48 <=? n) && (n <=? 57))%N then Some (n - 48)%N
  else if ((65 <=? n) && (n <=? 70))%N then Some (n - 55)%N
  else None.

Fixpoint formDecode (s : string) : string :=
  match s with
  | EmptyString => EmptyString
  | String c rest =>
      if Ascii.eqb c "+" then String " " (formDecode rest)
      else if Ascii.eqb c "%" then
        match rest with
        | String a (String b rest') =>
            match hexValue a, hexValue b with
            | Some x, Some y => String (ascii_of_N (16 * x + y)) (formDecode rest')
            | _, _ => String c (formDecode rest)
            end
        | _ => String c (formDecode rest)
        end
      else String c (formDecode rest)
  end.

Definition parsePair (piece : string) : string * string :=
  match OptionMerger.split "=" piece with
  | name :: value :: _ => (formDecode name, formDecode value)
  | _ => (formDecode piece, EmptyString)
  end.

Definition parseForm (body : string) : list (string * string) :=
  map parsePair
    (filter (fun piece => piece <> EmptyString) (OptionMerger.split "&" body)).

(** [c] occurs in [s]. *)
Fixpoint occurs (c : ascii) (s : string) : bool :=
  match s with
  | EmptyString => false
  | String d rest => Ascii.eqb d c || occurs c rest
  end.


(** ** Query parameters ([buildQueryParams], [src/config/index.ts]) *)

Module Query.
Import OptionMerger.

Record QueryParams := mkQueryParams {
  key : option string;
  vpn : option Z;
  asn : option Z;
  risk : option Z;
  inf : option Z;
  days : option Q;
  node : option Z;
  port : option Z;
  seen : option Z
}.

(** A truthy optional boolean. *)
Definition isTrue (b : option bool) : bool :=
  match b with
  | Some true => true
  | _ => false
  end.

(** [a || b] on optional strings. *)
Definition orOption (a b : option string) : option string :=
  match a with
  | Some s => if truthyString s then Some s else b
  | None => b
  end.

Definition buildQueryParams (options : ProxyCheckOptions)
    (apiKey : option string) : QueryParams :=
  let finalApiKey := orOption (OptionMerger.apiKey options) apiKey in
  {| key := match finalApiKey with
            | Some s => if truthyString s then Some s else None
            | None => None
            end;
     vpn := vpnDetection options;
     asn := if isTrue (asnData options) then Some 1 else None;
     risk := riskData options;
     inf := if isTrue (infEngine options) then Some 1 else None;
     days := match dayRestrictor options with
             | Some d => if Qeq_bool d 0 then None else Some d
             | None => None
             end;
     node := Some 1;
     port := Some 1;
     seen := Some 1 |}.

End Query.

(** ** Services ([BaseService], [src/services/check.ts]) *)

Module API_ENDPOINTS.
Definition CHECK := "v2/".
Definition LISTS := "dashboard/lists/".
Definition RULES := "dashboard/rules/".
Definition EXPORT := "dashboard/export/".
End API_ENDPOINTS.

Module BaseService.
Import OptionMerger.

(** [s.trim().length === 0]: nothing is left of [s] once its white
    space is taken off. *)
Definition isBlank (s : string) : bool :=
  match trimStart s with
  | EmptyString => true
  | String _ _ => false
  end.

(** A validation either passes or throws a [ProxyCheckValidationError]. *)
Definition validateConfiguration (apiKey : string) : option ProxyCheckError :=
  if negb (truthyString apiKey) then
    Some (ValidationError "API key is required but not configured"
            (Some "apiKey") None)
  else None.

Definition validateAddresses (addresses : Addresses) : option ProxyCheckError :=
  let falsy := match addresses with
               | One a => negb (truthyString a)
               | Many _ => false
               end in
  if falsy then
    Some (ValidationError "Addresses are required" (Some "addresses") None)
  else
    let addressList := match addresses with
                       | One a => [a]
                       | Many l => l
                       end in
    if (length addressList =? 0)%nat then
      Some (ValidationError "At least one address is required"
              (Some "addresses") None)
    else if existsb isBlank addressList then
      Some (ValidationError "Address must be a non-empty string"
              (Some "addresses") None)
    else None.

End BaseService.

Module CheckService.
Import OptionMerger Query BaseService.

(** [ProxyCheckOptionsSchema.parse] on a typed option bag: the three
    range constraints of the schema. *)
Definition schemaAccepts (options : ProxyCheckOptions) : bool :=
  match riskData options with
  | Some n => (0 <=? n) && (n <=? 2)
  | None => true
  end &&
  match vpnDetection options with
  | Some n => (0 <=? n) && (n <=? 3)
  | None => true
  end &&
  match dayRestrictor options with
  | Some d => negb (Qle_bool d 0)
  | None => true
  end.

Definition validateOptions (options : ProxyCheckOptions)
    : ProxyCheckError + ProxyCheckOptions :=
  if schemaAccepts options then inr options
  else inl (ValidationError "Invalid options provided" (Some "options") None).

(** The call [checkAddresses] makes on the HTTP client: [get] on
    [buildUrlWithAddress(endpoint, address, params)], or [postForm] on
    [buildUrl(endpoint, query)] with a form body and, again, the query
    parameters. *)
Inductive HttpCall :=
| Get (endpoint address : string) (params : QueryParams)
| PostForm (endpoint : string) (query : QueryParams) (body : PostData)
    (params : QueryParams).

Record CheckPlan := mkCheckPlan {
  call : HttpCall;
  blockingFor : option string;
  mergedOptions : ProxyCheckOptions
}.

(** [checkAddresses] up to the call, and the address, if any, to which
    [addBlockingLogic] is applied on the response. *)
Definition planCheck (apiKey : string) (addresses : Addresses)
    (options : ProxyCheckOptions) : ProxyCheckError + CheckPlan :=
  match validateConfiguration apiKey with
  | Some e => inl e
  | None =>
  match validateAddresses addresses with
  | Some e => inl e
  | None =>
  match validateOptions options with
  | inl e => inl e
  | inr validatedOptions =>
      let processedAddresses :=
        processAddresses addresses (isTrue (maskAddress validatedOptions)) in
      let merged := mergeCountryOptions validatedOptions in
      let queryParams := buildQueryParams merged (Some apiKey) in
      let postData := buildPostData merged (Some processedAddresses) in
      let finalAddress :=
        match addresses, processedAddresses with
        | One _, One a => if truthyString a then Some a else None
        | One _, Many l => match l with
                           | a :: _ => if truthyString a then Some a else None
                           | [] => None
                           end
        | Many _, _ => None
        end in
      if shouldUsePostMethod (Some processedAddresses) then
        inr {| call := PostForm API_ENDPOINTS.CHECK queryParams postData queryParams;
               blockingFor := finalAddress;
               mergedOptions := merged |}
      else
        let singleAddress :=
          match processedAddresses with
          | Many l => head l
          | One a => Some a
          end in
        match singleAddress with
        | Some a =>
            if truthyString a then
              inr {| call := Get API_ENDPOINTS.CHECK a queryParams;
                     blockingFor := finalAddress;
                     mergedOptions := merged |}
            else inl (ValidationError "No address provided" (Some "address") None)
        | None => inl (ValidationError "No address provided" (Some "address") None)
        end
  end end end.

(** *** Blocking decision *)

Record AddressCheckResult := mkResult {
  proxy : option string;
  type : option string;
  country : option string;
  isocode : option string;
  disposable : option string
}.

Inductive BlockStatus := BlockYes | BlockNo | BlockNa.
Inductive BlockReason :=
| ReasonProxy | ReasonVpn | ReasonCountry | ReasonDisposable | ReasonNa.

(** [list?.length && (list.includes(country) || (isocode &&
    list.includes(isocode)))]. *)
Definition countryListed (list : option (list string))
    (countryName : string) (iso : option string) : bool :=
  match list with
  | Some l =>
      (0 <? length l)%nat &&
      (bool_decide (countryName ∈ l) ||
       match iso with
       | Some code => truthyString code && bool_decide (code ∈ l)
       | None => false
       end)
  | None => false
  end.

(** [addBlockingLogic]: the values it stores in [response.block] and
    [response.block_reason]; [result] is [response[address]]. *)
Definition addBlockingLogic (result : option AddressCheckResult)
    (address : string) (options : ProxyCheckOptions)
    : BlockStatus * BlockReason :=
  match result with
  | None => (BlockNa, ReasonNa)
  | Some result =>
      match (if includes "@" address then disposable result else None) with
      | Some d =>
          if bool_decide (d = "yes") then (BlockYes, ReasonDisposable)
          else (BlockNo, ReasonNa)
      | None =>
          let detected :=
            if bool_decide (proxy result = Some "yes") then
              if bool_decide (type result = Some "VPN")
              then (BlockYes, ReasonVpn) else (BlockYes, ReasonProxy)
            else (BlockNo, ReasonNa) in
          match country result with
          | None => (BlockNa, ReasonNa)
          | Some countryName =>
              if negb (truthyString countryName) then (BlockNa, ReasonNa)
              else
                let afterBlocked :=
                  match detected with
                  | (BlockNo, _) =>
                      if countryListed (blockedCountries options) countryName
                           (isocode result)
                      then (BlockYes, ReasonCountry) else detected
                  | _ => detected
                  end in
                match afterBlocked with
                | (BlockYes, _) =>
                    if countryListed (allowedCountries options) countryName
                         (isocode result)
                    then (BlockNo, ReasonNa) else afterBlocked
                | _ => afterBlocked
                end
          end
      end
  end.

End CheckService.


(** ** Further vocabulary: the check service *)

(** The addresses [validateAddresses] lets through. *)
Definition wellFormed (addresses : OptionMerger.Addresses) : Prop :=
  match addresses with
  | OptionMerger.One a => BaseService.isBlank a = false
  | OptionMerger.Many l =>
      l <> [] /\ Forall (fun a => BaseService.isBlank a = false) l
  end.

(** The address as [processAddresses] leaves it under the [maskAddress]
    option. *)
Definition processed (options : OptionMerger.ProxyCheckOptions)
    (address : string) : string :=
  if Query.isTrue (OptionMerger.maskAddress options)
  then OptionMerger.maskEmail address else address.

(** Options that set nothing, and options that only ask for masking. *)
Definition noOptions : OptionMerger.ProxyCheckOptions :=
  OptionMerger.mkOptions None None None None None None None None None None
    None None.

Definition maskingOptions : OptionMerger.ProxyCheckOptions :=
  OptionMerger.mkOptions None None None None None None None None None None
    None (Some true).


(** ** The stats service ([src/services/stats.ts]) *)

Module StatsService.
Import BaseService.

Inductive StatType := Detections | Queries | Usage.

Definition statSelection (statType : StatType) : string :=
  match statType with
  | Detections => "detections"
  | Queries => "queries"
  | Usage => "usage"
  end.

(** [Number.isInteger] on a finite number. *)
Definition isInteger (x : Q) : bool := Qeq_bool (inject_Z (Qfloor x)) x.

Definition validateLimit (limit : Q) : ProxyCheckError + Q :=
  if negb (isInteger limit) || negb (Qle_bool 1 limit) then
    inl (ValidationError "Limit must be a positive integer" (Some "limit") None)
  else if negb (Qle_bool limit 1000) then
    inl (ValidationError "Limit cannot exceed 1000" (Some "limit") None)
  else inr limit.

Definition validateOffset (offset : Q) : ProxyCheckError + Q :=
  if negb (isInteger offset) || negb (Qle_bool 0 offset) then
    inl (ValidationError "Offset must be a non-negative integer"
           (Some "offset") None)
  else inr offset.

(** [StatsOptionsSchema.parse] on typed options: the range constraints
    on [limit] and [offset]. *)
Definition schemaAccepts (limit offset : option Q) : bool :=
  match limit with
  | Some l => negb (Qle_bool l 0) && Qle_bool l 1000
  | None => true
  end &&
  match offset with
  | Some o => Qle_bool 0 o
  | None => true
  end.

Record StatsQuery := mkStatsQuery {
  key : string;
  json : option Z;
  limit : option Q;
  offset : option Q
}.

(** The request: [get] on [buildUrl(endpoint, query)]. *)
Record StatsCall := mkStatsCall {
  endpoint : string;
  query : StatsQuery
}.

(** An optional argument through its validation. *)
Definition validated (validate : Q -> ProxyCheckError + Q)
    (value : option Q) : ProxyCheckError + option Q :=
  match value with
  | Some v =>
      match validate v with
      | inl e => inl e
      | inr v' => inr (Some v')
      end
  | None => inr None
  end.

Definition getStats (apiKey : string) (statType : StatType)
    (limit offset : option Q) : ProxyCheckError + StatsCall :=
  match validateConfiguration apiKey with
  | Some e => inl e
  | None =>
      let paginated :=
        match statType with
        | Detections | Queries => true
        | Usage => false
        end in
      match (if paginated then validated validateLimit limit else inr None) with
      | inl e => inl e
      | inr statsLimit =>
      match (if paginated then validated validateOffset offset else inr None) with
      | inl e => inl e
      | inr statsOffset =>
          if schemaAccepts statsLimit statsOffset then
            inr {| endpoint :=
                     API_ENDPOINTS.EXPORT +:+ statSelection statType +:+ "/";
                   query :=
                     {| key := orString (Some apiKey) apiKey;
                        json := if paginated then Some 1 else None;
                        limit := match statType with
                                 | Detections => statsLimit
                                 | _ => None
                                 end;
                        offset := match statType with
                                  | Detections => statsOffset
                                  | _ => None
                                  end |} |}
          else
            inl (ValidationError "Invalid stats options provided"
                   (Some "options") None)
      end end
  end.

(** The public methods; an absent argument takes its default. *)
Definition getDetections (apiKey : string) (limit offset : option Q) :=
  getStats apiKey Detections (Some (default 100%Q limit))
    (Some (default 0%Q offset)).

Definition getQueries (apiKey : string) (limit offset : option Q) :=
  getStats apiKey Queries (Some (default 100%Q limit))
    (Some (default 0%Q offset)).

Definition getUsage (apiKey : string) := getStats apiKey Usage None None.

(** [(page - 1) * pageSize], each operation rounded. *)
Definition pageOffset (page pageSize : Q) : Q :=
  Double.fl (Double.fl (page - 1) * pageSize)%Q.

Definition getDetectionsPaginated (apiKey : string) (page pageSize : option Q) :=
  let page := default 1%Q page in
  let pageSize := default 100%Q pageSize in
  getDetections apiKey (Some pageSize) (Some (pageOffset page pageSize)).

Definition getQueriesPaginated (apiKey : string) (page pageSize : option Q) :=
  let page := default 1%Q page in
  let pageSize := default 100%Q pageSize in
  getQueries apiKey (Some pageSize) (Some (pageOffset page pageSize)).

End StatsService.

(** ** The listing service ([src/services/listing.ts]) *)

Module ListingService.
Import OptionMerger BaseService.

Inductive ListType := Whitelist | Blacklist.
Inductive ListAction := ListAdd | ListRemove | ListSet | ListGet.

Definition listSelection (listType : ListType) : string :=
  match listType with
  | Whitelist => "whitelist"
  | Blacklist => "blacklist"
  end.

Definition listAction (action : ListAction) : string :=
  match action with
  | ListAdd => "add"
  | ListRemove => "remove"
  | ListSet => "set"
  | ListGet => "get"
  end.

(** Carriage return, line feed. *)
Definition CRLF : string := String "013" (String "010" EmptyString).

Fixpoint dropString (n : nat) (s : string) : string :=
  match n, s with
  | O, _ => s
  | S n', String _ rest => dropString n' rest
  | S _, EmptyString => EmptyString
  end.

(** [s.replace(pattern, replacement)] for a string pattern and a
    replacement without [$]: the first occurrence is replaced. *)
Fixpoint replaceFirst (pattern replacement s : string) : string :=
  if String.prefix pattern s then
    replacement +:+ dropString (String.length pattern) s
  else
    match s with
    | String c rest => String c (replaceFirst pattern replacement rest)
    | EmptyString => EmptyString
    end.

Definition validateEntries (entries : list string) : option ProxyCheckError :=
  if existsb isBlank entries then
    Some (ValidationError "Each entry must be a non-empty string"
            (Some "entries") None)
  else None.

(** The call on the HTTP client: [get] on [buildUrl(endpoint, {key})],
    or [postForm] on that URL with [data], given by its entries. *)
Inductive ListCall :=
| ListGetCall (endpoint key : string)
| ListPostForm (endpoint key : string)
    (data : option (list (string * option string))).

(** [manageList] up to the call.  [ListOptionsSchema] constrains the
    types only, so its check passes on typed arguments. *)
Definition manageList (apiKey : string) (listType : ListType)
    (action : ListAction) (entries : option Addresses)
    : ProxyCheckError + ListCall :=
  match validateConfiguration apiKey with
  | Some e => inl e
  | None =>
      let entryArray :=
        match entries with
        | Some (Many l) => Some l
        | Some (One a) => Some [a]
        | None => None
        end in
      let invalid :=
        match entryArray, action with
        | _, ListGet => None
        | Some l, _ => if (0 <? length l)%nat then validateEntries l else None
        | None, _ => None
        end in
      match invalid with
      | Some e => inl e
      | None =>
          let postData :=
            match entryArray with
            | Some l =>
                if (0 <? length l)%nat
                then "data=" +:+ String.concat CRLF l
                else EmptyString
            | None => EmptyString
            end in
          match action with
          | ListGet => inr (ListGetCall (API_ENDPOINTS.LISTS +:+ "print/") apiKey)
          | _ =>
              inr (ListPostForm
                     (API_ENDPOINTS.LISTS +:+ listAction action +:+ "/" +:+
                      listSelection listType +:+ "/")
                     apiKey
                     (if truthyString postData
                      then Some [("data",
                                  Some (replaceFirst "data=" EmptyString postData))]
                      else None))
          end
      end
  end.

Definition getList (apiKey : string) (listType : ListType) :=
  manageList apiKey listType ListGet None.

Definition clearList (apiKey : string) (listType : ListType) :=
  manageList apiKey listType ListSet (Some (Many [])).

End ListingService.

(** ** The rules service ([RulesService]) *)

Module RulesService.
Import BaseService.

Inductive RuleAction := RuleAdd | RuleRemove | RuleSet | RuleGet | RuleTest.

Definition ruleAction (action : RuleAction) : string :=
  match action with
  | RuleAdd => "add"
  | RuleRemove => "remove"
  | RuleSet => "set"
  | RuleGet => "get"
  | RuleTest => "test"
  end.

(** The [RequestConfig] that [HttpClient.post] hands to [request]; the
    URL is [buildUrl(endpoint, {key})]. *)
Record RequestConfig := mkRequestConfig {
  method : string;
  endpoint : string;
  key : string;
  data : option string;
  params : option (list (string * string));
  headers : option (list (string * string))
}.

(** [HttpClient.post(url, data, params, headers)]. *)
Definition post (endpoint key : string) (data : option string)
    (params headers : option (list (string * string))) : RequestConfig :=
  {| method := "POST"; endpoint := endpoint; key := key; data := data;
     params := params; headers := headers |}.

(** [manageRule]; [RuleOptionsSchema] constrains the types only. *)
Definition manageRule (apiKey : string) (action : RuleAction)
    (name conditions : option string) : ProxyCheckError + RequestConfig :=
  match validateConfiguration apiKey with
  | Some e => inl e
  | None =>
      let postFields :=
        (match name with
         | Some n => if truthyString n then ["name=" +:+ n] else []
         | None => []
         end ++
         match conditions with
         | Some c => if truthyString c then ["data=" +:+ c] else []
         | None => []
         end)%list in
      let postData :=
        if (0 <? length postFields)%nat then String.concat "&" postFields
        else EmptyString in
      inr (post (API_ENDPOINTS.RULES +:+ ruleAction action +:+ "/") apiKey
             (Some postData)
             (Some [("Content-Type", "application/x-www-form-urlencoded")])
             None)
  end.

(** A character of the class [[a-zA-Z0-9_]]. *)
Definition isWordChar (c : ascii) : bool :=
  let n := Z.of_N (N_of_ascii c) in
  ((97 <=? n) && (n <=? 122)) || ((65 <=? n) && (n <=? 90)) ||
  ((48 <=? n) && (n <=? 57)) || (n =? 95).

Fixpoint allWordChars (s : string) : bool :=
  match s with
  | EmptyString => true
  | String c rest => isWordChar c && allWordChars rest
  end.

Definition validateRuleName (name : string) : option ProxyCheckError :=
  if negb (truthyString name) then
    Some (ValidationError "Rule name is required and must be a string"
            (Some "name") None)
  else if isBlank name then
    Some (ValidationError "Rule name cannot be empty" (Some "name") None)
  else if negb (allWordChars name) then
    Some (ValidationError
            "Rule name can only contain letters, numbers, and underscores"
            (Some "name") None)
  else if (50 <? String.length name)%nat then
    Some (ValidationError "Rule name cannot exceed 50 characters"
            (Some "name") None)
  else None.

Definition removeRule (apiKey name : string) :=
  manageRule apiKey RuleRemove (Some name) None.

Definition deleteRule (apiKey name : string)
    : ProxyCheckError + RequestConfig :=
  match validateRuleName name with
  | Some e => inl e
  | None => removeRule apiKey name
  end.

End RulesService.

(** ** The configuration manager ([ConfigManager], [src/config/index.ts])
    and the client's constructor *)

(** [Partial<ClientConfig>]; [None] is an absent property. *)
Module PartialConfig.
Record t := mk {
  apiKey : option string;
  baseUrl : option string;
  timeout : option Z;
  retries : option Z;
  retryDelay : option Q;
  tlsSecurity : option bool;
  userAgent : option string
}.
End PartialConfig.

Module ConfigManager.

(** [process.env], the six variables the manager reads. *)
Record Environment := mkEnvironment {
  PROXYCHECK_API_KEY : option string;
  PROXYCHECK_BASE_URL : option string;
  PROXYCHECK_TIMEOUT : option string;
  PROXYCHECK_RETRIES : option string;
  PROXYCHECK_RETRY_DELAY : option string;
  PROXYCHECK_TLS_SECURITY : option string
}.

(** What [getEnvironmentConfig] returns. *)
Record EnvConfig := mkEnvConfig {
  envApiKey : option string;
  envBaseUrl : option string;
  envTimeout : option JsNumber;
  envRetries : option JsNumber;
  envRetryDelay : option JsNumber;
  envTlsSecurity : option bool
}.

(** A variable that is set to a non-empty string. *)
Definition whenSet {A : Type} (variable : option string) (f : string -> A)
    : option A :=
  match variable with
  | Some s => if truthyString s then Some (f s) else None
  | None => None
  end.

Definition getEnvironmentConfig (env : Environment) : EnvConfig :=
  {| envApiKey := whenSet (PROXYCHECK_API_KEY env) (fun s => s);
     envBaseUrl := whenSet (PROXYCHECK_BASE_URL env) (fun s => s);
     envTimeout := whenSet (PROXYCHECK_TIMEOUT env) parseInt;
     envRetries := whenSet (PROXYCHECK_RETRIES env) parseInt;
     envRetryDelay := whenSet (PROXYCHECK_RETRY_DELAY env) parseInt;
     envTlsSecurity :=
       whenSet (PROXYCHECK_TLS_SECURITY env)
         (fun s => bool_decide (s = "true")) |}.

(** [a || b || d] on numbers: [undefined], [0] and [NaN] are falsy. *)
Definition orNumber (a : option Z) (b : option JsNumber) (d : Z) : Z :=
  match a with
  | Some z => if z =? 0 then
                match b with
                | Some (Int y) => if y =? 0 then d else y
                | _ => d
                end
              else z
  | None => match b with
            | Some (Int y) => if y =? 0 then d else y
            | _ => d
            end
  end.

Definition orNumberQ (a : option Q) (b : option JsNumber) (d : Q) : Q :=
  let fromEnv := match b with
                 | Some (Int y) => if y =? 0 then d else inject_Z y
                 | _ => d
                 end in
  match a with
  | Some q => if Qeq_bool q 0 then fromEnv else q
  | None => fromEnv
  end.

Definition buildConfig (userConfig : PartialConfig.t) (env : Environment)
    : Config :=
  let envConfig := getEnvironmentConfig env in
  {| apiKey :=
       orString (PartialConfig.apiKey userConfig)
         (orString (envApiKey envConfig) EmptyString);
     baseUrl :=
       orString (PartialConfig.baseUrl userConfig)
         (orString (envBaseUrl envConfig) DEFAULTS.BASE_URL);
     timeout :=
       orNumber (PartialConfig.timeout userConfig) (envTimeout envConfig)
         DEFAULTS.TIMEOUT;
     retries :=
       orNumber (PartialConfig.retries userConfig) (envRetries envConfig)
         DEFAULTS.RETRIES;
     retryDelay :=
       orNumberQ (PartialConfig.retryDelay userConfig) (envRetryDelay envConfig)
         DEFAULTS.RETRY_DELAY;
     tlsSecurity :=
       match PartialConfig.tlsSecurity userConfig with
       | Some b => b
       | None => default DEFAULTS.TLS_SECURITY (envTlsSecurity envConfig)
       end;
     userAgent :=
       orString (PartialConfig.userAgent userConfig) DEFAULTS.USER_AGENT |}.

(** [ClientConfigSchema.parse(this._config)]: the paths of the fields
    that break a constraint; [validateConfig] throws when there is one. *)
Definition validateConfig (config : Config) : list string :=
  ((if truthyString (apiKey config) then [] else ["apiKey"]) ++
   (if 0 <? timeout config then [] else ["timeout"]) ++
   (if 0 <=? retries config then [] else ["retries"]) ++
   (if Qle_bool 0 (retryDelay config) then [] else ["retryDelay"]))%list.

(** The constructor: the configuration, or the paths at fault. *)
Definition new (userConfig : PartialConfig.t) (env : Environment)
    : list string + Config :=
  let config := buildConfig userConfig env in
  match validateConfig config with
  | [] => inr config
  | issues => inl issues
  end.

(** [updateConfig]: the new [_config], which is assigned before it is
    validated, and the paths at fault. *)
Definition updateConfig (this : Config) (updates : PartialConfig.t)
    (env : Environment) : Config * list string :=
  let newConfig :=
    {| PartialConfig.apiKey :=
         Some (default (apiKey this) (PartialConfig.apiKey updates));
       PartialConfig.baseUrl :=
         Some (default (baseUrl this) (PartialConfig.baseUrl updates));
       PartialConfig.timeout :=
         Some (default (timeout this) (PartialConfig.timeout updates));
       PartialConfig.retries :=
         Some (default (retries this) (PartialConfig.retries updates));
       PartialConfig.retryDelay :=
         Some (default (retryDelay this) (PartialConfig.retryDelay updates));
       PartialConfig.tlsSecurity :=
         Some (default (tlsSecurity this) (PartialConfig.tlsSecurity updates));
       PartialConfig.userAgent :=
         Some (default (userAgent this) (PartialConfig.userAgent updates)) |} in
  let config := buildConfig newConfig env in
  (config, validateConfig config).

(** The [ClientConfig] that [ProxyCheckClient]'s constructor hands to
    [new HttpClient]. *)
Definition httpConfig (fullConfig : Config) : ClientConfig.t :=
  {| ClientConfig.apiKey := apiKey fullConfig;
     ClientConfig.baseUrl := Some (baseUrl fullConfig);
     ClientConfig.timeout := Some (timeout fullConfig);
     ClientConfig.retries := Some (retries fullConfig);
     ClientConfig.retryDelay := Some (retryDelay fullConfig);
     ClientConfig.tlsSecurity := Some (tlsSecurity fullConfig);
     ClientConfig.userAgent := Some (userAgent fullConfig) |}.

End ConfigManager.

(** ** Further vocabulary: the stats service *)

(** The limits and offsets that pass: an integer from 1 to 1000, a
    natural number. *)
Definition limitOk (limit : Q) : Prop :=
  StatsService.isInteger limit = true /\ (1 <= limit)%Q /\ (limit <= 1000)%Q.

Definition offsetOk (offset : Q) : Prop :=
  StatsService.isInteger offset = true /\ (0 <= offset)%Q.


(** ** [BaseService.retryRequest]

    The retry helper of the services.  [requestFn k] is what the call
    number [k] of the request function settles to, [rnd k] what the draw
    number [k] of [Math.random] returns. *)

Module ServiceRetry.

Record Progress := mkProgress {
  made : nat;
  drawn : nat;
  slept : list Q
}.

(** The [for] loop from [attempt] on, and the [throw] after it. *)
Fixpoint retryLoop (requestFn : nat -> Thrown + JsData) (rnd : nat -> Q)
    (maxRetries : Z) (baseDelay : Q) (fuel : nat) (attempt : Z)
    (lastError : Thrown) (p : Progress) : Outcome * Progress :=
  match fuel with
  | O => (OutOfFuel, p)
  | S fuel' =>
      if attempt <=? maxRetries then
        let p1 := {| made := S (made p); drawn := drawn p; slept := slept p |} in
        match requestFn (made p) with
        | inr body => (Resolves body, p1)
        | inl error =>
            if attempt =? maxRetries then (Rejects error, p1)
            else
              let delay := calculateDelay attempt baseDelay (rnd (drawn p)) in
              retryLoop requestFn rnd maxRetries baseDelay fuel' (attempt + 1)
                error
                {| made := made p1; drawn := S (drawn p1);
                   slept := (slept p1 ++ [delay])%list |}
        end
      else (Rejects lastError, p)
  end.

Definition retryRequest (requestFn : nat -> Thrown + JsData) (rnd : nat -> Q)
    (maxRetries : option Z) (baseDelay : option Q) : Outcome * Progress :=
  let maxRetries := default 3 maxRetries in
  let baseDelay := default 1000%Q baseDelay in
  retryLoop requestFn rnd maxRetries baseDelay (Z.to_nat (maxRetries + 2)) 0
    ThUndefined {| made := O; drawn := O; slept := [] |}.

End ServiceRetry.

(** * Properties *)

(** ** Unit checks against the repository's tests *)

Example parseInt_examples :
  parseInt "100" = Int 100 /\ parseInt " -42px" = Int (-42) /\
  parseInt "" = NaN /\ parseInt "abc" = NaN /\ parseInt "+7" = Int 7 /\
  parseInt "1700000000" = Int 1700000000.
Proof. repeat split; reflexivity. Qed.

(** Parsing and multiplying give doubles: above 2^53 the value is
    rounded; a date beyond 8.64e15 ms is invalid. *)
Example parseInt_rounds :
  parseInt "9007199254740992" = Int 9007199254740992 /\
  parseInt "9007199254740993" = Int 9007199254740992 /\
  parseInt "-9007199254740995" = Int (-9007199254740996) /\
  mulNumber (Int 9007199254740991) 1000 = Int 9007199254740990976 /\
  newDate (mulNumber (parseInt "8640000000000") 1000)
  = Int 8640000000000000 /\
  newDate (mulNumber (parseInt "8640000000001") 1000) = NaN /\
  newDate (mulNumber (parseInt "-8640000000001") 1000) = NaN.
Proof. repeat split; vm_compute; reflexivity. Qed.

(** White space of any length in bytes is skipped. *)
Example trimStart_examples :
  trimStart (ideographicSpace +:+ " " +:+ noBreakSpace +:+ "42") = "42" /\
  parseInt (ideographicSpace +:+ "42") = Int 42 /\
  BaseService.isBlank ideographicSpace = true /\
  BaseService.isBlank (noBreakSpace +:+ " ") = true /\
  BaseService.isBlank " a" = false /\
  CheckService.planCheck "k" (OptionMerger.One ideographicSpace) noOptions
  = inl (ValidationError "Address must be a non-empty string"
           (Some "addresses") None).
Proof. repeat split; vm_compute; reflexivity. Qed.

Example showZ_examples :
  showZ 500 = "500" /\ showZ 0 = "0" /\ showZ 404 = "404".
Proof. repeat split; reflexivity. Qed.

(** [errors.test.ts], "should create rate limit error from 429 response". *)
Example createError_429_example :
  createErrorFromResponse
    (failureWith (mkResponse 429 (DObject (Some "Too many requests") None)
       (<["x-ratelimit-limit" := "100"]>
        (<["x-ratelimit-remaining" := "0"]>
         (<["x-ratelimit-reset" := "1700000000"]>
          {[ "retry-after" := "30" ]})))))
  = Returned (RateLimitError "Rate limit exceeded" (Int 100) (Int 0)
                (Int 1700000000000) (Int 30)).
Proof. vm_compute. reflexivity. Qed.

(** [errors.test.ts], the 401, timeout and network cases. *)
Example createError_other_examples :
  createErrorFromResponse
    (failureWith (mkResponse 401 (DObject (Some "Invalid API key") None) ∅))
  = Returned (AuthenticationError "Invalid API key") /\
  createErrorFromResponse
    (mkRawError None (Some "ECONNABORTED") (Some "timeout of 5000ms exceeded")
       (Some 5000) false false)
  = Returned (TimeoutError "Request timed out" 5000) /\
  createErrorFromResponse
    (mkRawError None None (Some "Network Error") None true false)
  = Returned (NetworkError "Network error occurred" None).
Proof. repeat split; vm_compute; reflexivity. Qed.

(** [config.test.ts], the option merger cases. *)
Example optionMerger_examples :
  OptionMerger.processAddresses
    (OptionMerger.Many ["1.2.3.4"; "test@example.com"; "user@domain.org"]) true
  = OptionMerger.Many ["1.2.3.4"; "anonymous@example.com"; "anonymous@domain.org"] /\
  OptionMerger.processAddresses (OptionMerger.One "test@example.com") true
  = OptionMerger.One "anonymous@example.com" /\
  OptionMerger.shouldUsePostMethod (Some (OptionMerger.Many ["1.2.3.4"])) = false /\
  OptionMerger.shouldUsePostMethod
    (Some (OptionMerger.Many ["1.2.3.4"; "5.6.7.8"])) = true.
Proof. repeat split; reflexivity. Qed.

(** ** Rounding to a double is monotone *)

Section DoubleRounding.
Import Double.
Local Open Scope Q_scope.

Lemma rne_bounds t : (Qfloor t <= rne t <= Qfloor t + 1)%Z.
Proof.
  unfold rne. destruct (Qcompare _ _); [destruct (Z.even _)|..]; lia.
Qed.

Lemma rne_inject z : rne (inject_Z z) = z.
Proof.
  unfold rne. rewrite Qfloor_Z.
  destruct (Qcompare_spec (inject_Z z - inject_Z z) (1 # 2)) as [H|H|H];
    [exfalso; lra | reflexivity | exfalso; lra].
Qed.

Lemma rne_mono t u : t <= u -> (rne t <= rne u)%Z.
Proof.
  intros Htu.
  pose proof (Qfloor_resp_le _ _ Htu) as Hf.
  pose proof (rne_bounds t) as Ht. pose proof (rne_bounds u) as Hu.
  destruct (Z.eq_dec (Qfloor t) (Qfloor u)) as [E|NE]; [|lia].
  unfold rne in *. rewrite <- E in *.
  destruct (Qcompare_spec (t - inject_Z (Qfloor t)) (1 # 2)) as [Ct|Ct|Ct];
    destruct (Qcompare_spec (u - inject_Z (Qfloor t)) (1 # 2)) as [Cu|Cu|Cu];
    try (destruct (Z.even (Qfloor t))); try lia; exfalso; lra.
Qed.

Lemma pow2Q_pos e : (0 <= e)%Z -> 0 < inject_Z (2 ^ e).
Proof.
  intros He. replace 0 with (inject_Z 0) by reflexivity.
  rewrite <- Zlt_Qlt. apply Z.pow_pos_nonneg; lia.
Qed.

Lemma shift_nonneg s : (0 <= shift s)%Z.
Proof. unfold shift; lia. Qed.

Lemma Qdiv_le_mono a b c : 0 < c -> a <= b -> a / c <= b / c.
Proof.
  intros Hc Hab. unfold Qdiv. apply Qmult_le_compat_r; [assumption|].
  apply Qinv_le_0_compat. lra.
Qed.

Lemma Qfloor_nonneg s : 0 <= s -> (0 <= Qfloor s)%Z.
Proof. intros H. apply (Qfloor_resp_le 0 s) in H. exact H. Qed.

(** A rounded value does not leave its binade upwards ... *)
Lemma roundScaled_upper s :
  0 <= s -> (roundScaled s <= 2 ^ (Z.log2 (Qfloor s) + 1))%Z.
Proof.
  intros Hs. unfold roundScaled.
  pose proof (Qfloor_nonneg s Hs) as Hf.
  pose proof (Z.log2_nonneg (Qfloor s)) as Hk.
  set (k := Z.log2 (Qfloor s)) in *.
  assert (He : (0 <= shift s <= k + 1)%Z) by (unfold shift; fold k; lia).
  set (e := shift s) in *.
  assert (Hf1 : (Qfloor s + 1 <= 2 ^ (k + 1))%Z).
  { destruct (Z.eq_dec (Qfloor s) 0%Z) as [E|NE].
    - subst k. rewrite E. simpl. lia.
    - pose proof (Z.log2_spec (Qfloor s)) as L. fold k in L.
      replace (Z.succ k) with (k + 1)%Z in L by lia. lia. }
  assert (Hsplit : (2 ^ (k + 1) = 2 ^ (k + 1 - e) * 2 ^ e)%Z).
  { rewrite <- Z.pow_add_r by lia. f_equal. lia. }
  rewrite Hsplit. apply Z.mul_le_mono_nonneg_r; [apply Z.pow_nonneg; lia|].
  rewrite <- (rne_inject (2 ^ (k + 1 - e))). apply rne_mono.
  apply Qle_shift_div_r; [apply pow2Q_pos; lia|].
  rewrite <- inject_Z_mult, <- Hsplit.
  apply Qle_trans with (inject_Z (Qfloor s + 1)).
  - apply Qlt_le_weak, Qlt_floor.
  - rewrite <- Zle_Qle. exact Hf1.
Qed.

(** ... nor downwards, above the subnormal range. *)
Lemma roundScaled_lower s :
  (0 < shift s)%Z -> (2 ^ Z.log2 (Qfloor s) <= roundScaled s)%Z.
Proof.
  intros He. unfold roundScaled.
  set (k := Z.log2 (Qfloor s)) in *.
  assert (Hek : shift s = (k - 52)%Z)
    by (unfold shift in *; fold k in He |- *; lia).
  set (e := shift s) in *.
  assert (Hf : (0 < Qfloor s)%Z).
  { destruct (Z.lt_trichotomy (Qfloor s) 0%Z) as [N|[N|N]]; [| |exact N].
    - subst k. rewrite Z.log2_nonpos in Hek by lia. lia.
    - subst k. rewrite N in Hek. simpl in Hek. lia. }
  pose proof (Z.log2_spec (Qfloor s) Hf) as L. fold k in L.
  assert (Hsplit : (2 ^ k = 2 ^ 52 * 2 ^ e)%Z).
  { rewrite <- Z.pow_add_r by lia. f_equal. lia. }
  rewrite Hsplit. apply Z.mul_le_mono_nonneg_r; [apply Z.pow_nonneg; lia|].
  rewrite <- (rne_inject (2 ^ 52)) at 1. apply rne_mono.
  apply Qle_shift_div_l; [apply pow2Q_pos; lia|].
  rewrite <- inject_Z_mult, <- Hsplit.
  apply Qle_trans with (inject_Z (Qfloor s)).
  - rewrite <- Zle_Qle. lia.
  - apply Qfloor_le.
Qed.

Lemma roundScaled_mono s1 s2 :
  0 <= s1 -> s1 <= s2 -> (roundScaled s1 <= roundScaled s2)%Z.
Proof.
  intros H1 H12.
  pose proof (Qfloor_nonneg s1 H1) as Hf1.
  pose proof (Qfloor_resp_le _ _ H12) as Hf.
  pose proof (Z.log2_le_mono _ _ Hf) as Hk.
  destruct (Z.eq_dec (shift s1) (shift s2)) as [E|NE].
  - unfold roundScaled. rewrite <- E.
    apply Z.mul_le_mono_nonneg_r; [apply Z.pow_nonneg; lia|].
    apply rne_mono, Qdiv_le_mono; [apply pow2Q_pos, shift_nonneg|assumption].
  - assert (H2 : (0 < shift s2)%Z) by (unfold shift in *; lia).
    assert (Hlt : (Z.log2 (Qfloor s1) + 1 <= Z.log2 (Qfloor s2))%Z)
      by (unfold shift in *; lia).
    etransitivity; [apply roundScaled_upper; assumption|].
    etransitivity; [|apply roundScaled_lower; assumption].
    apply Z.pow_le_mono_r; lia.
Qed.

Lemma roundScaled_nonneg s : 0 <= s -> (0 <= roundScaled s)%Z.
Proof.
  intros Hs. unfold roundScaled.
  apply Z.mul_nonneg_nonneg; [|apply Z.pow_nonneg; lia].
  pose proof (rne_bounds (s / inject_Z (2 ^ shift s))) as B.
  assert (0 <= s / inject_Z (2 ^ shift s)) as D.
  { apply Qle_shift_div_l; [apply pow2Q_pos, shift_nonneg|]. lra. }
  apply Qfloor_nonneg in D. lia.
Qed.

Lemma scale_pos : 0 < scale.
Proof. apply pow2Q_pos. lia. Qed.

Lemma flAbs_nonneg q : 0 <= q -> 0 <= flAbs q.
Proof.
  intros Hq. unfold flAbs.
  apply Qle_shift_div_l; [apply scale_pos|]. rewrite Qmult_0_l.
  replace 0 with (inject_Z 0) by reflexivity. rewrite <- Zle_Qle.
  apply roundScaled_nonneg. apply Qmult_le_0_compat; [assumption|].
  apply Qlt_le_weak, scale_pos.
Qed.

Lemma flAbs_mono x y : 0 <= x -> x <= y -> flAbs x <= flAbs y.
Proof.
  intros Hx Hxy. unfold flAbs.
  apply Qdiv_le_mono; [apply scale_pos|]. rewrite <- Zle_Qle.
  pose proof scale_pos.
  apply roundScaled_mono.
  - apply Qmult_le_0_compat; lra.
  - apply Qmult_le_compat_r; lra.
Qed.

Lemma fl_mono x y : x <= y -> fl x <= fl y.
Proof.
  intros Hxy. unfold fl.
  destruct (Qle_bool 0 x) eqn:Bx; destruct (Qle_bool 0 y) eqn:By.
  - apply Qle_bool_iff in Bx. now apply flAbs_mono.
  - apply Qle_bool_iff in Bx.
    assert (~ 0 <= y) as N by (rewrite <- Qle_bool_iff; congruence). lra.
  - apply Qle_bool_iff in By.
    assert (~ 0 <= x) as N by (rewrite <- Qle_bool_iff; congruence).
    pose proof (flAbs_nonneg y By). pose proof (flAbs_nonneg (- x)).
    lra.
  - assert (~ 0 <= x) as Nx by (rewrite <- Qle_bool_iff; congruence).
    assert (~ 0 <= y) as Ny by (rewrite <- Qle_bool_iff; congruence).
    pose proof (flAbs_mono (- y) (- x)). lra.
Qed.

Lemma representable_0 : representable 0.
Proof. vm_compute. reflexivity. Qed.

Lemma representable_1000 : representable 1000.
Proof. vm_compute. reflexivity. Qed.

(** The model agrees with the textbook double of one tenth,
    0x1.999999999999ap-4. *)
Example fl_one_tenth :
  fl (1 # 10) == inject_Z 3602879701896397 / inject_Z (2 ^ 55).
Proof. vm_compute. reflexivity. Qed.

(** The jitter [Math.random() * 1000] lies in [0, 1000]. *)
Lemma jitter_range rnd :
  0 <= rnd < 1 -> 0 <= fl (rnd * 1000) <= 1000.
Proof.
  intros [H0 H1].
  pose proof representable_0 as R0. pose proof representable_1000 as R1.
  unfold representable in R0, R1.
  assert (fl 0 <= fl (rnd * 1000)) by (apply fl_mono; lra).
  assert (fl (rnd * 1000) <= fl 1000) by (apply fl_mono; lra).
  lra.
Qed.

End DoubleRounding.

(** ** Integers below 2^53 are doubles *)

Section ExactIntegers.
Import Double.
Local Open Scope Q_scope.

Lemma rne_comp t u : t == u -> rne t = rne u.
Proof.
  intros H. apply Z.le_antisymm; apply rne_mono; rewrite H; apply Qle_refl.
Qed.

Lemma fl_comp x y : x == y -> fl x == fl y.
Proof.
  intros H. apply Qle_antisym; apply fl_mono; rewrite H; apply Qle_refl.
Qed.

Lemma roundScaled_integer (z : Z) :
  (0 <= z < 2 ^ 53)%Z ->
  roundScaled (inject_Z z * scale) = (z * 2 ^ 1074)%Z.
Proof.
  intros Hz. unfold roundScaled, scale.
  assert (F : Qfloor (inject_Z z * inject_Z (2 ^ 1074)) = (z * 2 ^ 1074)%Z).
  { rewrite <- inject_Z_mult. apply Qfloor_Z. }
  unfold shift. rewrite F.
  set (e := Z.max 0 (Z.log2 (z * 2 ^ 1074) - 52)).
  assert (He : (0 <= e <= 1074)%Z).
  { unfold e. destruct (Z.eq_dec z 0%Z) as [->|Hnz].
    - rewrite Z.mul_0_l. cbn. lia.
    - rewrite Z.log2_mul_pow2 by lia.
      assert (Z.log2 z < 53)%Z by (apply Z.log2_lt_pow2; lia).
      pose proof (Z.log2_nonneg z). lia. }
  assert (P : (2 ^ 1074 = 2 ^ (1074 - e) * 2 ^ e)%Z).
  { rewrite <- Z.pow_add_r by lia. f_equal. lia. }
  assert (Hpos : 0 < inject_Z (2 ^ e)) by (apply pow2Q_pos; lia).
  rewrite (rne_comp _ (inject_Z (z * 2 ^ (1074 - e)))).
  - rewrite rne_inject. rewrite P. ring.
  - rewrite P. rewrite !inject_Z_mult. field. lra.
Qed.

Lemma flAbs_integer (z : Z) :
  (0 <= z < 2 ^ 53)%Z -> flAbs (inject_Z z) == inject_Z z.
Proof.
  intros Hz. unfold flAbs. rewrite (roundScaled_integer z Hz).
  rewrite inject_Z_mult. pose proof scale_pos. unfold scale in *.
  field. lra.
Qed.

(** Every integer of magnitude below 2^53 is a double. *)
Lemma fl_integer (z : Z) :
  (Z.abs z < 2 ^ 53)%Z -> fl (inject_Z z) == inject_Z z.
Proof.
  intros Hz. unfold fl.
  destruct (Qle_bool 0 (inject_Z z)) eqn:E.
  - apply Qle_bool_iff in E.
    assert (0 <= z)%Z by (rewrite Zle_Qle; exact E).
    apply flAbs_integer. lia.
  - assert (z < 0)%Z.
    { destruct (Z.le_gt_cases 0 z) as [H|H]; [|exact H].
      assert (H' : 0 <= inject_Z z) by (rewrite Zle_Qle in H; exact H).
      apply Qle_bool_iff in H'. congruence. }
    rewrite <- inject_Z_opp. rewrite flAbs_integer by lia.
    rewrite inject_Z_opp. ring.
Qed.

(** Rounding an integer below 2^53 changes nothing. *)
Lemma ofZ_exact (z : Z) : (Z.abs z < 2 ^ 53)%Z -> ofZ z = z.
Proof.
  intros Hz. unfold ofZ.
  rewrite (Qfloor_comp _ _ (fl_integer z Hz)). apply Qfloor_Z.
Qed.

End ExactIntegers.

(** ** Backoff delay *)

Section Backoff.
Import Double.
Local Open Scope Q_scope.

(** What the code does guarantee.  The delay is the rounded sum of
    [baseDelay * 2^attempt] and of the jitter [Math.random() * 1000],
    itself rounded.  For every attempt index and base delay such that
    [baseDelay * 2^attempt] is a double, and every random value in
    [0, 1), the jitter lies in [0, 1000] and the delay is at least
    [baseDelay * 2^attempt] and at most the double nearest to
    [baseDelay * 2^attempt + 1000]; when that sum is itself a double (it
    is for every integer below 2^53) the delay lies in the closed interval
    from [baseDelay * 2^attempt] to [baseDelay * 2^attempt + 1000]. *)
Lemma calculateDelay_bounds (attempt : Z) (baseDelay rnd : Q) :
  0 <= rnd < 1 ->
  representable (baseDelay * 2 ^ attempt) ->
  calculateDelay attempt baseDelay rnd
  = fl (fl (baseDelay * 2 ^ attempt) + fl (rnd * 1000)) /\
  0 <= fl (rnd * 1000) <= 1000 /\
  baseDelay * 2 ^ attempt <= calculateDelay attempt baseDelay rnd /\
  calculateDelay attempt baseDelay rnd <= fl (baseDelay * 2 ^ attempt + 1000) /\
  (representable (baseDelay * 2 ^ attempt + 1000) ->
   calculateDelay attempt baseDelay rnd <= baseDelay * 2 ^ attempt + 1000).
Proof.
  intros Hrnd Hbase. split; [reflexivity|].
  unfold calculateDelay, representable in *.
  destruct (jitter_range rnd Hrnd) as [J0 J1].
  set (base := baseDelay * 2 ^ attempt) in *.
  set (jitter := fl (rnd * 1000)) in *.
  assert (Hlo : fl base <= fl (fl base + jitter)) by (apply fl_mono; lra).
  assert (Hhi : fl (fl base + jitter) <= fl (base + 1000))
    by (apply fl_mono; lra).
  split; [split; assumption|].
  repeat split; [lra | lra | intros Htop; lra].
Qed.

Lemma calculateDelay_bounds_example :
  1000 * 2 ^ 1 <= calculateDelay 1 1000 (1 # 2) /\
  calculateDelay 1 1000 (1 # 2) <= 1000 * 2 ^ 1 + 1000.
Proof.
  destruct (calculateDelay_bounds 1 1000 (1 # 2)) as (_ & _ & Hlo & _ & Hhi).
  - split; [discriminate | reflexivity].
  - vm_compute. reflexivity.
  - split; [exact Hlo | apply Hhi; vm_compute; reflexivity].
Qed.

(** C4 fails in the code.  [Math.random()] can return 1 - 2^-52, a
    double below 1.  With the default base delay 1000 the jitter is then
    below 1000, but at attempt 1 the exact sum 3000 - 2^-42 lies half-way
    between two doubles and is rounded to 3000: the delay is not in the
    half-open interval from 2000 to 3000, which the repository's own test
    of [calculateDelay] expects.  At attempt 2 the delay is 5000 in the
    same way. *)
Theorem calculateDelay_reaches_upper_end :
  0 <= maxRandom < 1 /\ representable maxRandom /\
  0 <= fl (maxRandom * 1000) < 1000 /\
  calculateDelay 1 1000 maxRandom == 1000 * 2 ^ 1 + 1000 /\
  ~ (1000 * 2 ^ 1 <= calculateDelay 1 1000 maxRandom < 1000 * 2 ^ 1 + 1000) /\
  calculateDelay 2 1000 maxRandom == 1000 * 2 ^ 2 + 1000.
Proof.
  split; [split; [discriminate | reflexivity]|].
  split; [vm_compute; reflexivity|].
  split; [split; [vm_compute; discriminate | vm_compute; reflexivity]|].
  split; [vm_compute; reflexivity|].
  split; [intros [_ H]; vm_compute in H; discriminate H|].
  vm_compute. reflexivity.
Qed.

(** Below the tie the strict bound does hold: attempt 0, same inputs. *)
Example calculateDelay_attempt0 :
  calculateDelay 0 1000 maxRandom < 1000 * 2 ^ 0 + 1000.
Proof. reflexivity. Qed.

End Backoff.

(** The same computations on the kernel's binary64 numbers:
    [1000 * 2 ** 1 + 0.9999999999999998 * 1000] is [3000], and the model
    agrees with the hardware on it, on attempt 0, on a delay with a
    fractional base, and in the subnormal range. *)
Example calculateDelay_binary64 :
  (1000 * 2 + 0x1.ffffffffffffep-1 * 1000)%float = 3000%float /\
  PrimFloat.ltb 0x1.ffffffffffffep-1 1 = true /\
  sameNumber 0x1.ffffffffffffep-1 maxRandom = true /\
  sameNumber (1000 * 2 + 0x1.ffffffffffffep-1 * 1000)%float
    (calculateDelay 1 1000 maxRandom) = true /\
  sameNumber (1000 * 1 + 0x1.ffffffffffffep-1 * 1000)%float
    (calculateDelay 0 1000 maxRandom) = true /\
  sameNumber (0x1.999999999999ap-4 * 8 + 0x1.3333333333333p-2 * 1000)%float
    (calculateDelay 3 (Double.fl (1 # 10)) (Double.fl (3 # 10))) = true /\
  sameNumber (0x0.00000000007e8p-1022 * 1000)%float
    (Double.fl (Double.fl (1 / inject_Z (10 ^ 320)) * 1000)) = true.
Proof. repeat split; vm_compute; reflexivity. Qed.

(** ** Retryability *)

(** A rate-limit error always carries status 429. *)
Lemma isRateLimitError_status error :
  isRateLimitError error = true -> thrownStatusCode error = Some 429.
Proof.
  destruct error as [|[]|]; simpl; intros H; try discriminate; reflexivity.
Qed.

(** C1, as the code has it.  [isRetryableError] returns true exactly
    for: a rate-limit error; an error with a numeric status code of 500
    or more; and an error whose code is NETWORK_ERROR or TIMEOUT_ERROR
    and that carries no 4xx status code.  A 4xx status code decides
    first: such an error is retried only when it is a rate-limit error,
    whatever its code. *)
Theorem isRetryableError_iff (error : Thrown) :
  isRetryableError error = true <->
    isRateLimitError error = true \/
    (exists statusCode,
        thrownStatusCode error = Some statusCode /\ 500 <= statusCode) \/
    ((exists code, thrownCode error = Some code /\ retryCode code) /\
     ~ clientErrorStatus error).
Proof.
  unfold isRetryableError, clientErrorStatus, retryCode.
  split.
  - intros H.
    destruct (thrownStatusCode error) as [sc|] eqn:Hsc.
    + destruct ((400 <=? sc) && (sc <? 500)) eqn:H4.
      * left. exact H.
      * destruct (500 <=? sc) eqn:H5.
        -- right; left. exists sc. split; [reflexivity | lia].
        -- right; right. split.
           ++ destruct (thrownCode error) as [code|]; [|discriminate].
              exists code. split; [reflexivity|].
              apply orb_true_iff in H.
              destruct H as [H|H]; apply bool_decide_eq_true in H; tauto.
           ++ intros (sc' & E & R). injection E as <-.
              apply andb_false_iff in H4. lia.
    + right; right. split.
      * destruct (thrownCode error) as [code|]; [|discriminate].
        exists code. split; [reflexivity|].
        apply orb_true_iff in H.
        destruct H as [H|H]; apply bool_decide_eq_true in H; tauto.
      * intros (sc' & E & _). discriminate E.
  - intros [H | [(sc & E & H) | [(code & E & H) N]]].
    + rewrite (isRateLimitError_status _ H). simpl. exact H.
    + rewrite E.
      destruct ((400 <=? sc) && (sc <? 500)) eqn:H4.
      * apply andb_true_iff in H4. lia.
      * destruct (500 <=? sc) eqn:H5; [reflexivity | lia].
    + assert (B : (bool_decide (code = ERROR_CODES.NETWORK_ERROR)
                   || bool_decide (code = ERROR_CODES.TIMEOUT_ERROR)) = true).
      { apply orb_true_iff.
        destruct H as [H|H]; [left|right]; apply bool_decide_eq_true; exact H. }
      rewrite E, B.
      destruct (thrownStatusCode error) as [sc|] eqn:Hsc; [|reflexivity].
      destruct ((400 <=? sc) && (sc <? 500)) eqn:H4.
      * exfalso. apply N. exists sc. apply andb_true_iff in H4.
        split; [reflexivity | lia].
      * destruct (500 <=? sc); reflexivity.
Qed.

(** C1, as stated, fails: an error whose code is NETWORK_ERROR is not
    retried when it also carries the status code 404. *)
Lemma isRetryableError_network_code_404 :
  let error := ThError (Base "Not found" ERROR_CODES.NETWORK_ERROR (Some 404)) in
  thrownCode error = Some ERROR_CODES.NETWORK_ERROR /\
  isRetryableError error = false.
Proof. split; reflexivity. Qed.

(** An error with a 4xx status other than 429 is never retried. *)
Lemma isRetryableError_client_error error statusCode :
  thrownStatusCode error = Some statusCode ->
  400 <= statusCode < 500 -> statusCode <> 429 ->
  isRetryableError error = false.
Proof.
  intros E R N. unfold isRetryableError. rewrite E.
  replace ((400 <=? statusCode) && (statusCode <? 500)) with true
    by (symmetry; apply andb_true_iff; lia).
  destruct (isRateLimitError error) eqn:RL; [|reflexivity].
  apply isRateLimitError_status in RL. congruence.
Qed.

(** [http-client.test.ts], "isRetryableError". *)
Example isRetryableError_examples :
  isRetryableError (ThError (NetworkError "Network error" None)) = true /\
  isRetryableError (ThError (APIError "Server error" 500 None None)) = true /\
  isRetryableError
    (ThError (RateLimitError "Rate limited" (Int 100) (Int 0) (Int 0) (Int 60)))
    = true /\
  isRetryableError (ThError (APIError "Bad request" 400 None None)) = false /\
  isRetryableError (ThError (AuthenticationError "Unauthorized")) = false /\
  isRetryableError (ThError (TimeoutError "Request timed out" 5000)) = true /\
  isRetryableError ThUndefined = false.
Proof. repeat split; reflexivity. Qed.

(** ** The retry loop *)

Section RetryLoop.
Variable w : World.

Lemma updateRateLimitInfo_config resp this :
  _config (updateRateLimitInfo resp this) = _config this.
Proof. unfold updateRateLimitInfo. destruct (headerPresent _ _); reflexivity. Qed.

Lemma axiosRequest_config r :
  _config (client (snd (axiosRequest w r))) = _config (client r).
Proof.
  unfold axiosRequest.
  destruct (transport w (calls r)) as [resp|err]; simpl.
  - apply updateRateLimitInfo_config.
  - destruct (createErrorFromResponse err); simpl;
      destruct (response err); simpl;
      try apply updateRateLimitInfo_config; reflexivity.
Qed.

Lemma axiosRequest_calls r : calls (snd (axiosRequest w r)) = S (calls r).
Proof.
  unfold axiosRequest.
  destruct (transport w (calls r)) as [resp|err]; simpl; [reflexivity|].
  destruct (createErrorFromResponse err); simpl;
    destruct (response err); reflexivity.
Qed.

Lemma axiosRequest_fulfilled r resp r1 :
  axiosRequest w r = (inl resp, r1) -> transport w (calls r) = Fulfilled resp.
Proof.
  unfold axiosRequest.
  destruct (transport w (calls r)) as [resp'|err]; simpl.
  - intros [= <- _]. reflexivity.
  - destruct (createErrorFromResponse err); discriminate.
Qed.

(** The invariant of the loop: it never runs out of fuel, makes at most
    [retries + 1 - attempt] transport calls, and stops for one of the
    three reasons of the source. *)
Lemma requestLoop_spec fuel : forall attempt lastError r,
  Z.max 0 (retries (_config (client r)) + 1 - attempt) < Z.of_nat fuel ->
  exists out r',
    requestLoop w fuel attempt lastError r = (out, r') /\
    _config (client r') = _config (client r) /\
    (calls r <= calls r')%nat /\
    Z.of_nat (calls r' - calls r)
      <= Z.max 0 (retries (_config (client r)) + 1 - attempt) /\
    match out with
    | Resolves body =>
        exists resp, (calls r < calls r')%nat /\
          transport w (calls r' - 1) = Fulfilled resp /\ data resp = body
    | Rejects error =>
        if attempt <=? retries (_config (client r)) then
          attempt + Z.of_nat (calls r' - calls r)
            = retries (_config (client r)) + 1
          \/ isRetryableError error = false
        else error = lastError /\ calls r' = calls r
    | OutOfFuel => False
    end.
Proof.
  induction fuel as [|fuel IH]; intros attempt lastError r Hfuel; [lia|].
  simpl requestLoop.
  destruct (attempt <=? retries (_config (client r))) eqn:Hguard.
  2:{ eexists _, _. split; [reflexivity|]. simpl.
      repeat split; try lia. }
  apply Z.leb_le in Hguard.
  pose proof (axiosRequest_config r) as Hcfg.
  pose proof (axiosRequest_calls r) as Hcalls.
  destruct (axiosRequest w r) as [[resp|error] r1] eqn:Hreq; simpl in Hcfg, Hcalls.
  - eexists _, _. split; [reflexivity|]. simpl.
    rewrite Hcfg, Hcalls. repeat split; try lia.
    exists resp. split; [lia|]. split; [|reflexivity].
    replace (S (calls r) - 1)%nat with (calls r) by lia.
    eapply axiosRequest_fulfilled; eassumption.
  - rewrite Hcfg.
    destruct (attempt =? retries (_config (client r))) eqn:Hlast.
    { apply Z.eqb_eq in Hlast.
      eexists _, _. split; [reflexivity|]. simpl.
      rewrite Hcfg, Hcalls. repeat split; try lia. }
    apply Z.eqb_neq in Hlast.
    destruct (isRetryableError error) eqn:Hretry; simpl negb; cbv iota.
    2:{ eexists _, _. split; [reflexivity|]. simpl.
        rewrite Hcfg, Hcalls. repeat split; try lia. right; exact Hretry. }
    simpl mathRandom. cbv beta iota.
    match goal with
    | |- context [requestLoop w fuel (attempt + 1) error ?r2] =>
        destruct (IH (attempt + 1) error r2) as (out & r' & E & C & L & B & O)
    end.
    { simpl. rewrite Hcfg. lia. }
    simpl in C, L, B, O. rewrite Hcfg in C, B, O. rewrite Hcalls in L, B, O.
    exists out, r'. split; [exact E|].
    split; [exact C|]. split; [lia|]. split; [lia|].
    destruct out as [body|err|]; [| |exact O].
    + destruct O as (resp & Hlt & Htr & Hd).
      exists resp. split; [lia|]. split; assumption.
    + replace (attempt + 1 <=? retries (_config (client r))) with true in O
        by (symmetry; apply Z.leb_le; lia).
      destruct O as [O|O]; [left; lia | right; exact O].
Qed.

End RetryLoop.

(** One iteration of the loop takes one of the three transitions. *)
Lemma requestLoop_step (w : World) (fuel : nat) (attempt : Z)
    (lastError : Thrown) (r : Run) :
  attempt <= retries (_config (client r)) ->
  attemptTransition w fuel attempt lastError r.
Proof.
  intros Hguard. unfold attemptTransition.
  pose proof (axiosRequest_config w r) as Hcfg.
  simpl requestLoop.
  replace (attempt <=? retries (_config (client r))) with true
    by (symmetry; apply Z.leb_le; lia).
  destruct (axiosRequest w r) as [[resp|error] r1]; simpl in Hcfg.
  - left. exists resp, r1. split; reflexivity.
  - right. rewrite Hcfg.
    destruct (attempt =? retries (_config (client r))) eqn:Hlast.
    { left. exists error, r1. apply Z.eqb_eq in Hlast. auto. }
    apply Z.eqb_neq in Hlast.
    destruct (isRetryableError error) eqn:Hretry; simpl negb; cbv iota.
    + right. exists error, r1.
      split; [reflexivity|]. split; [lia|]. split; [exact Hretry|].
      reflexivity.
    + left. exists error, r1. auto.
Qed.

(** C2.  For every retry count [retries >= 0] and every sequence of
    transport outcomes, [request] returns (the loop terminates) after at
    most [retries + 1] transport calls; it resolves with the body of the
    response of its last call, or rejects after call number
    [retries + 1] or with an error that is not retryable.  Each attempt
    of the loop either returns the body, or breaks because its index is
    [retries] or the error is not retryable, or goes on to the next
    index. *)
Theorem request_attempts_bounded (w : World) (r : Run) :
  0 <= retries (_config (client r)) ->
  (exists out r',
    request w r = (out, r') /\
    Z.of_nat (calls r' - calls r) <= retries (_config (client r)) + 1 /\
    match out with
    | Resolves body =>
        exists resp, (calls r < calls r')%nat /\
          transport w (calls r' - 1) = Fulfilled resp /\ data resp = body
    | Rejects error =>
        Z.of_nat (calls r' - calls r) = retries (_config (client r)) + 1
        \/ isRetryableError error = false
    | OutOfFuel => False
    end) /\
  (forall fuel attempt lastError r0,
     attempt <= retries (_config (client r0)) ->
     attemptTransition w fuel attempt lastError r0).
Proof.
  intros Hretries. split; [|intros; now apply requestLoop_step].
  cbv beta iota zeta delta [request mathRandom].
  match goal with
  | |- context [requestLoop w ?fuel 0 ThUndefined ?r1] =>
      destruct (requestLoop_spec w fuel 0 ThUndefined r1)
        as (out & r' & E & C & L & B & O)
  end.
  { simpl. lia. }
  simpl in E, C, L, B, O.
  exists out, r'. split; [exact E|]. split; [lia|].
  destruct out as [body|error|]; [exact O| |exact O].
  replace (0 <=? retries (_config (client r))) with true in O
    by (symmetry; apply Z.leb_le; lia).
  destruct O as [O|O]; [left; lia | right; exact O].
Qed.

Lemma request_attempts_bounded_witness :
  let w := failAlways (rateLimited "abc") (1 # 2) in
  exists out r',
    request w (start defaultClient) = (out, r') /\
    Z.of_nat (calls r' - 0) <= 3 + 1 /\
    match out with
    | Resolves body =>
        exists resp, (0 < calls r')%nat /\
          transport w (calls r' - 1) = Fulfilled resp /\ data resp = body
    | Rejects error =>
        Z.of_nat (calls r' - 0) = 3 + 1 \/ isRetryableError error = false
    | OutOfFuel => False
    end.
Proof.
  intros w.
  apply (proj1 (request_attempts_bounded w (start defaultClient)
                  ltac:(vm_compute; discriminate))).
Defined.

(** The loop terminates for every retry count, negative ones included. *)
Lemma request_returns (w : World) (r : Run) :
  fst (request w r) <> OutOfFuel.
Proof.
  cbv beta iota zeta delta [request mathRandom].
  match goal with
  | |- context [requestLoop w ?fuel 0 ThUndefined ?r1] =>
      destruct (requestLoop_spec w fuel 0 ThUndefined r1)
        as (out & r' & E & _ & _ & _ & O)
  end.
  { simpl. lia. }
  rewrite E. simpl. destruct out; [discriminate|discriminate|contradiction].
Qed.

(** The constructor resolves a missing or zero retry count to the
    default of 3, which is then the [maxRetries] of the loop. *)
Example constructor_retries :
  retries (_config (newHttpClient minimalConfig)) = 3 /\
  retries (_config (newHttpClient
    (ClientConfig.mk "test-api-key" None None (Some 0) None None None))) = 3 /\
  retries (_config (newHttpClient
    (ClientConfig.mk "test-api-key" None None (Some 5) None None None))) = 5.
Proof. repeat split; reflexivity. Qed.

(** A negative retry count is accepted by the constructor; the loop
    body then never runs and [request] throws [undefined]. *)
Example request_negative_retries :
  let this := newHttpClient
    (ClientConfig.mk "test-api-key" None None (Some (-1)) None None None) in
  retries (_config this) = -1 /\
  fst (request (failAlways nullBody500 0%Q) (start this)) = Rejects ThUndefined /\
  calls (snd (request (failAlways nullBody500 0%Q) (start this))) = 0%nat.
Proof. repeat split; reflexivity. Qed.

(** Scenario 5 of the specification: with 3 retries and a persistent
    network error, exactly 4 transport calls, then the error. *)
Example request_exhausts_retries :
  let w := failAlways (mkRawError None None (Some "Network Error") None true false) (1 # 2) in
  fst (request w (start defaultClient))
    = Rejects (ThError (NetworkError "Network error occurred" None)) /\
  calls (snd (request w (start defaultClient))) = 4%nat.
Proof. split; vm_compute; reflexivity. Qed.

(** ** Rate-limit override of the delay *)

(** C3, as the code has it.  When an attempt that is not the last one
    fails with a rate-limit error, the loop sleeps and goes on to the
    next attempt index.  The delay handed to the timer is the product
    [retryAfter * 1000], a double and taken finite, when [retryAfter] is
    a number other than 0, and the backoff delay of [calculateDelay] when
    [retryAfter] is 0 or [NaN].  For [retryAfter] from 1 to 2147483 the
    product is exact and lies in the range of delays for which a timer
    waits as long as it is told, so the delay awaited is
    [retryAfter * 1000] milliseconds. *)
Theorem rate_limit_delay (w : World) (fuel : nat) (attempt : Z)
    (lastError : Thrown) (r r1 : Run) (message : string)
    (limit remaining : JsNumber) (reset : Date) (retryAfter : JsNumber) :
  let error := ThError (RateLimitError message limit remaining reset retryAfter) in
  let backoff := calculateDelay attempt (retryDelay (_config (client r)))
                   (random w (draws r1)) in
  axiosRequest w r = (inr error, r1) ->
  attempt < retries (_config (client r)) ->
  exists delay,
    requestLoop w (S fuel) attempt lastError r
    = requestLoop w fuel (attempt + 1) error
        (sleep delay
           (log LogWarn "HTTP request failed, retrying"
              (snd (mathRandom w r1)))) /\
    match retryAfter with
    | Int seconds =>
        if seconds =? 0 then delay = backoff
        else
          (finiteNumber (mulNumber retryAfter 1000) ->
           delay = inject_Z (Double.ofZ (seconds * 1000))) /\
          (1 <= seconds <= 2147483 ->
           delay = inject_Z (seconds * 1000) /\ timerRange delay)
    | NaN => delay = backoff
    end.
Proof.
  intros error backoff Hreq Hlt.
  pose proof (axiosRequest_config w r) as Hcfg. rewrite Hreq in Hcfg.
  simpl in Hcfg.
  exists (retryDelayFor (client r1) attempt error (random w (draws r1))).
  split.
  - simpl requestLoop. rewrite Hreq, Hcfg.
    replace (attempt <=? retries (_config (client r))) with true
      by (symmetry; apply Z.leb_le; lia).
    replace (attempt =? retries (_config (client r))) with false
      by (symmetry; apply Z.eqb_neq; lia).
    cbv beta iota zeta delta [mathRandom].
    replace (isRetryableError error) with true by reflexivity.
    reflexivity.
  - unfold retryDelayFor. rewrite Hcfg. fold backoff.
    destruct retryAfter as [|seconds];
      cbn [error isRateLimitError thrownRetryAfter truthyNumber mulNumber andb];
      [reflexivity|].
    destruct (Z.eqb_spec seconds 0) as [->|Hne]; cbn [negb]; [reflexivity|].
    split; [intros _; reflexivity|]. intros Hrange.
    rewrite ofZ_exact
      by (apply Z.abs_lt; assert (2147483647 < 2 ^ 53) by reflexivity; lia).
    split; [reflexivity|]. unfold timerRange.
    change 1%Q with (inject_Z 1). change 2147483647%Q with (inject_Z 2147483647).
    rewrite <- !Zle_Qle. lia.
Qed.

Lemma rate_limit_delay_witness :
  let w := failOnce (rateLimited "5") (1 # 2) in
  let r := start defaultClient in
  let error := ThError (RateLimitError "Rate limit exceeded"
                          (Int 0) (Int 0) (Int 0) (Int 5)) in
  requestLoop w 4 0 ThUndefined r
  = requestLoop w 3 (0 + 1) error
      (sleep (inject_Z (5 * 1000))
         (log LogWarn "HTTP request failed, retrying"
            (snd (mathRandom w (snd (axiosRequest w r)))))) /\
  timerRange (inject_Z (5 * 1000)).
Proof.
  intros w r error.
  destruct (rate_limit_delay w 3 0 ThUndefined r (snd (axiosRequest w r))
              "Rate limit exceeded" (Int 0) (Int 0) (Int 0) (Int 5))
    as (delay & Hloop & Hdelay).
  - vm_compute. reflexivity.
  - reflexivity.
  - cbn [Z.eqb] in Hdelay. destruct Hdelay as (_ & Hexact).
    destruct Hexact as [-> Hrange]; [lia|].
    split; [exact Hloop | exact Hrange].
Defined.

(** C3, as stated, fails for [retryAfter = 0]: a 429 with the header
    [retry-after: 0] gives a rate-limit error with [retryAfter = 0], and
    the engine then waits the backoff delay, 1500 ms here, not 0 ms. *)
Lemma retry_after_zero_uses_backoff :
  let w := failOnce (rateLimited "0") (1 # 2) in
  createErrorFromResponse (rateLimited "0")
    = Returned (RateLimitError "Rate limit exceeded"
                  (Int 0) (Int 0) (Int 0) (Int 0)) /\
  exists delay,
    sleeps (trace (snd (request w (start defaultClient)))) = [delay] /\
    (delay == 1500)%Q /\ ~ (delay == inject_Z (0 * 1000))%Q.
Proof.
  split; [vm_compute; reflexivity|].
  eexists. split; [vm_compute; reflexivity|].
  split; [vm_compute; reflexivity|].
  intros H. vm_compute in H. discriminate H.
Qed.

(** Scenario 4 of the specification: [retry-after: 5] makes the engine
    wait 5000 ms, then the second call succeeds. *)
Example request_honours_retry_after :
  let w := failOnce (rateLimited "5") (1 # 2) in
  fst (request w (start defaultClient)) = Resolves (data okResponse) /\
  sleeps (trace (snd (request w (start defaultClient)))) = [inject_Z 5000] /\
  calls (snd (request w (start defaultClient))) = 2%nat.
Proof. repeat split; vm_compute; reflexivity. Qed.

(** ** Rate-limit snapshot *)

Lemma headerOr_number (h : Headers) (name : string) (fallback : Z) :
  parseInt (showZ fallback) = Int fallback ->
  parseInt (headerOr h name (showZ fallback)) = headerNumber h name fallback.
Proof.
  intros Hd. unfold headerOr, headerNumber.
  destruct (h !! name) as [v|]; [destruct (truthyString v)|]; auto.
Qed.

(** C5, as the code has it.  After a response, of a success or of a
    failure that carries one, whose [x-ratelimit-limit] header is present
    and not empty, the snapshot is the tuple read from that response
    alone: [limit] parsed from [x-ratelimit-limit], [remaining] parsed
    from [x-ratelimit-remaining] or 0, [reset] the date at the
    [x-ratelimit-reset] value (or 0) times 1000 milliseconds, the invalid
    date when that is no time value, [retryAfter] parsed from
    [retry-after] or 0.  Parsing gives the double nearest to the digits;
    the three numbers are taken finite.  When [x-ratelimit-limit] is
    missing or empty the client is left as it was, whatever other
    rate-limit headers the response carries. *)
Theorem rate_limit_snapshot (w : World) (r : Run) (resp : Response) :
  responseOf (transport w (calls r)) = Some resp ->
  let h := headers resp in
  let after := client (snd (axiosRequest w r)) in
  (forall v, h !! "x-ratelimit-limit" = Some v -> v <> "" ->
     finiteNumber (parseInt v) ->
     finiteNumber (headerNumber h "x-ratelimit-remaining" 0) ->
     finiteNumber (headerNumber h "retry-after" 0) ->
     getRateLimitInfo after = Some
       {| limit := parseInt v;
          remaining := headerNumber h "x-ratelimit-remaining" 0;
          reset := newDate (mulNumber (headerNumber h "x-ratelimit-reset" 0) 1000);
          retryAfter := headerNumber h "retry-after" 0 |}) /\
  (headerPresent h "x-ratelimit-limit" = false -> after = client r).
Proof.
  intros Hresp h after.
  assert (Hafter : after = updateRateLimitInfo resp (client r)).
  { subst after. unfold axiosRequest.
    destruct (transport w (calls r)) as [resp'|err]; simpl in Hresp.
    - injection Hresp as ->. reflexivity.
    - rewrite Hresp. destruct (createErrorFromResponse err); reflexivity. }
  rewrite Hafter. unfold updateRateLimitInfo. fold h. split.
  - intros v Hv Hne _ _ _. unfold headerPresent. rewrite Hv.
    destruct v as [|c v']; [contradiction|].
    cbn [truthyString getRateLimitInfo _rateLimitInfo default].
    rewrite !(headerOr_number h _ 0) by (vm_compute; reflexivity).
    reflexivity.
  - intros ->. reflexivity.
Qed.

Lemma rate_limit_snapshot_witness :
  let resp := mkResponse 200 (DObject None None)
                (<["x-ratelimit-limit" := "1000"]>
                   {[ "x-ratelimit-remaining" := "998" ]}) in
  let w := mkWorld (fun _ => Fulfilled resp) (fun _ => 0%Q) in
  getRateLimitInfo (client (snd (axiosRequest w (start defaultClient))))
  = Some {| limit := Int 1000; remaining := Int 998;
            reset := Int 0; retryAfter := Int 0 |}.
Proof.
  intros resp w.
  exact (proj1 (rate_limit_snapshot w (start defaultClient) resp eq_refl)
           "1000" eq_refl ltac:(discriminate)
           ltac:(vm_compute; reflexivity) ltac:(vm_compute; reflexivity)
           ltac:(vm_compute; reflexivity)).
Defined.

(** C5, as stated, fails: a response whose only rate-limit header is
    [x-ratelimit-remaining: 998] carries rate-limit information, yet the
    snapshot is not replaced; it stays absent. *)
Lemma remaining_header_alone_is_ignored :
  let resp := mkResponse 200 (DObject None None)
                {[ "x-ratelimit-remaining" := "998" ]} in
  let w := mkWorld (fun _ => Fulfilled resp) (fun _ => 0%Q) in
  carriesRateLimitInformation (headers resp) = true /\
  getRateLimitInfo (client (snd (axiosRequest w (start defaultClient)))) = None.
Proof. split; vm_compute; reflexivity. Qed.

(** The snapshot of the witness above, evaluated. *)
Example rate_limit_snapshot_example :
  let resp := mkResponse 200 (DObject None None)
                (<["x-ratelimit-limit" := "1000"]>
                   {[ "x-ratelimit-remaining" := "998" ]}) in
  getRateLimitInfo (updateRateLimitInfo resp defaultClient)
  = Some {| limit := Int 1000; remaining := Int 998;
            reset := Int 0; retryAfter := Int 0 |}.
Proof. vm_compute. reflexivity. Qed.

(** ** Classification of a 429 *)

(** C6.  For every raw failure that carries a response with status 429,
    [createErrorFromResponse] returns a rate-limit error whose [limit],
    [remaining] and [reset] are parsed from [x-ratelimit-limit],
    [x-ratelimit-remaining] and [x-ratelimit-reset] (the last one times
    1000, as a date), 0 standing for a missing header, and whose
    [retryAfter] is parsed from [retry-after], 60 standing for a missing
    header.  Parsing gives the double nearest to the digits; the three
    numbers are taken finite. *)
Theorem createErrorFromResponse_429 (err : RawError) (resp : Response) :
  response err = Some resp -> status resp = 429 ->
  let h := headers resp in
  finiteNumber (headerNumber h "x-ratelimit-limit" 0) ->
  finiteNumber (headerNumber h "x-ratelimit-remaining" 0) ->
  finiteNumber (headerNumber h "retry-after" 60) ->
  createErrorFromResponse err
  = Returned (RateLimitError "Rate limit exceeded"
      (headerNumber h "x-ratelimit-limit" 0)
      (headerNumber h "x-ratelimit-remaining" 0)
      (newDate (mulNumber (headerNumber h "x-ratelimit-reset" 0) 1000))
      (headerNumber h "retry-after" 60)) /\
  (forall v, h !! "retry-after" = Some v -> v <> "" ->
     headerNumber h "retry-after" 60 = parseInt v) /\
  (h !! "retry-after" = None -> headerNumber h "retry-after" 60 = Int 60).
Proof.
  intros Hresp Hstatus h _ _ _. split; [|split].
  - unfold createErrorFromResponse. rewrite Hresp, Hstatus.
    cbn [Z.eqb Pos.eqb]. cbv zeta. fold h.
    rewrite !(headerOr_number h _ 0) by (vm_compute; reflexivity).
    rewrite (headerOr_number h _ 60) by (vm_compute; reflexivity).
    reflexivity.
  - intros v Hv Hne. unfold headerNumber. rewrite Hv.
    destruct v; [contradiction | reflexivity].
  - intros Hnone. unfold headerNumber. rewrite Hnone. reflexivity.
Qed.

Lemma createErrorFromResponse_429_witness :
  let h : Headers := {[ "x-ratelimit-limit" := "100" ]} in
  createErrorFromResponse
    (failureWith (mkResponse 429 (DObject None None) h))
  = Returned (RateLimitError "Rate limit exceeded"
      (headerNumber h "x-ratelimit-limit" 0)
      (headerNumber h "x-ratelimit-remaining" 0)
      (newDate (mulNumber (headerNumber h "x-ratelimit-reset" 0) 1000))
      (headerNumber h "retry-after" 60)) /\
  headerNumber h "retry-after" 60 = Int 60.
Proof.
  intros h.
  destruct (createErrorFromResponse_429
              (failureWith (mkResponse 429 (DObject None None) h))
              (mkResponse 429 (DObject None None) h) eq_refl eq_refl)
    as (Hcreate & _ & Habsent);
    [vm_compute; reflexivity | vm_compute; reflexivity
     | vm_compute; reflexivity |].
  split; [exact Hcreate | apply Habsent; reflexivity].
Defined.

(** ** Typed errors at the engine boundary *)

(** C7 fails on a response whose body is [null]: with status 500 the
    generic path reads [response.message] of [null],
    [createErrorFromResponse] throws, and [request] rejects with the
    [TypeError], which is none of the SDK's errors.  The 401 path of the
    same function tests [data && typeof data === "object"] first. *)
Theorem request_rejects_untyped_on_null_body :
  let w := failAlways nullBody500 (1 # 2) in
  createErrorFromResponse nullBody500 = ThrowsTypeError /\
  fst (request w (start defaultClient)) = Rejects typeError /\
  isProxyCheckError typeError = false /\
  calls (snd (request w (start defaultClient))) = 1%nat.
Proof. repeat split; vm_compute; reflexivity. Qed.

(** The classifier returns whenever the body can be read. *)
Lemma createErrorFromResponse_returns (err : RawError) :
  (forall resp, response err = Some resp ->
     status resp = 429 \/ status resp = 401 \/ data resp <> DNullish) ->
  exists e, createErrorFromResponse err = Returned e.
Proof.
  intros Hbody. unfold createErrorFromResponse.
  destruct (response err) as [resp|].
  - destruct (status resp =? 429) eqn:H429; [eexists; reflexivity|].
    destruct (status resp =? 401) eqn:H401; [eexists; reflexivity|].
    destruct (Hbody resp eq_refl) as [H|[H|H]]; [lia|lia|].
    unfold fromResponse. destruct (data resp); [contradiction|..];
      eexists; reflexivity.
  - destruct (decide _); [eexists; reflexivity|].
    destruct (match rawMessage err with Some m => includes "timeout" m | None => false end);
      [eexists; reflexivity|].
    destruct (hasRequest err); eexists; reflexivity.
Qed.

Lemma axiosRequest_rejects_typed (w : World) (r r1 : Run) (error : Thrown) :
  bodiesReadable w -> axiosRequest w r = (inr error, r1) ->
  isProxyCheckError error = true.
Proof.
  intros Hw. unfold axiosRequest.
  destruct (transport w (calls r)) as [resp|err] eqn:Htr; [discriminate|].
  destruct (createErrorFromResponse_returns err) as [e He].
  { intros resp Hresp. eapply Hw; eassumption. }
  rewrite He. intros [= <- _]. reflexivity.
Qed.

Lemma requestLoop_rejects_typed (w : World) (fuel : nat) :
  bodiesReadable w ->
  forall attempt lastError r error r',
    isProxyCheckError lastError = true
      \/ attempt <= retries (_config (client r)) ->
    requestLoop w fuel attempt lastError r = (Rejects error, r') ->
    isProxyCheckError error = true.
Proof.
  intros Hw. induction fuel as [|fuel IH];
    intros attempt lastError r error r' Hpre; [discriminate|].
  simpl requestLoop.
  destruct (attempt <=? retries (_config (client r))) eqn:Hguard.
  2:{ apply Z.leb_gt in Hguard. intros [= <- _].
      destruct Hpre as [H|H]; [exact H | lia]. }
  destruct (axiosRequest w r) as [[resp|caught] r1] eqn:Hreq; [discriminate|].
  pose proof (axiosRequest_rejects_typed w r r1 caught Hw Hreq) as Htyped.
  destruct (attempt =? retries (_config (client r1)));
    [intros [= <- _]; exact Htyped|].
  destruct (isRetryableError caught); simpl negb; cbv iota;
    [|intros [= <- _]; exact Htyped].
  cbv beta iota zeta delta [mathRandom].
  apply IH. left. exact Htyped.
Qed.

(** What does hold of C7: with a non-negative retry count, and unless a
    failing response on the generic path has a [null] or [undefined]
    body, every error [request] rejects with is one of the SDK's. *)
Lemma request_rejects_typed (w : World) (r r' : Run) (error : Thrown) :
  bodiesReadable w -> 0 <= retries (_config (client r)) ->
  request w r = (Rejects error, r') ->
  isProxyCheckError error = true.
Proof.
  intros Hw Hretries. cbv beta iota zeta delta [request mathRandom].
  apply requestLoop_rejects_typed; [exact Hw|]. right. exact Hretries.
Qed.

(** ** Option merger *)

Section OptionMergerFacts.
Import OptionMerger.

(** C8.  For every option bag and address argument, the body built by
    [buildPostData] has the field [ips], the addresses joined by commas,
    exactly when the argument is an array of more than one address; it has
    the field [tag] exactly when query tagging is enabled and the custom
    tag is a non-empty string; and it is empty in every other case. *)
Theorem buildPostData_spec (options : ProxyCheckOptions)
    (addresses : option Addresses) :
  let body := buildPostData options addresses in
  let batch := exists l, addresses = Some (Many l) /\ (1 < length l)%nat in
  let tagged := queryTagging options = Some true /\
                exists t, customTag options = Some t /\ t <> "" in
  (forall s, ips body = Some s <->
     exists l, addresses = Some (Many l) /\ (1 < length l)%nat /\ s = join l) /\
  (forall t, tag body = Some t <->
     queryTagging options = Some true /\ customTag options = Some t /\ t <> "") /\
  (body = {| ips := None; tag := None |} <-> ~ batch /\ ~ tagged).
Proof.
  intros body batch tagged. subst body batch tagged.
  unfold buildPostData. simpl.
  assert (Hips : forall s,
    match addresses with
    | Some (Many l) => if (1 <? length l)%nat then Some (join l) else None
    | _ => None
    end = Some s <->
    exists l, addresses = Some (Many l) /\ (1 < length l)%nat /\ s = join l).
  { intros s. split.
    - destruct addresses as [[a|l]|]; try discriminate.
      destruct (1 <? length l)%nat eqn:Hlen; [|discriminate].
      intros [= <-]. exists l. apply Nat.ltb_lt in Hlen. auto.
    - intros (l & -> & Hlen & ->).
      apply Nat.ltb_lt in Hlen. rewrite Hlen. reflexivity. }
  assert (Htag : forall t,
    match queryTagging options, customTag options with
    | Some true, Some t0 => if truthyString t0 then Some t0 else None
    | _, _ => None
    end = Some t <->
    queryTagging options = Some true /\ customTag options = Some t /\ t <> "").
  { intros t. split.
    - destruct (queryTagging options) as [[|]|]; try discriminate.
      destruct (customTag options) as [t0|]; [|discriminate].
      destruct t0; simpl; [discriminate|].
      intros [= <-]. auto.
    - intros (-> & -> & Hne). destruct t; [contradiction | reflexivity]. }
  split; [exact Hips|]. split; [exact Htag|].
  split.
  - intros [= Hi Ht]. split.
    + intros (l & Ha & Hlen).
      assert (E := proj2 (Hips (join l))
                     (ex_intro _ l (conj Ha (conj Hlen eq_refl)))).
      congruence.
    + intros (Hq & t & Hc & Hne).
      assert (E := proj2 (Htag t) (conj Hq (conj Hc Hne))).
      congruence.
  - intros [Hnb Hnt]. f_equal.
    + destruct (match addresses with Some (Many l) => _ | _ => None end)
        as [s|] eqn:E; [|reflexivity].
      destruct (proj1 (Hips s) eq_refl) as (l & Ha & Hlen & _).
      exfalso. apply Hnb. eauto.
    + destruct (match queryTagging options with Some true => _ | _ => None end)
        as [t|] eqn:E; [|reflexivity].
      destruct (proj1 (Htag t) eq_refl) as (Hq & Hc & Hne).
      exfalso. apply Hnt. eauto.
Qed.

(** [config.test.ts], "buildPostData". *)
Example buildPostData_examples :
  let none := mkOptions None None None None None None None None None None None None in
  let tagged := mkOptions None None None None None None None None None
                  (Some true) (Some "test-tag") None in
  buildPostData none (Some (Many ["1.2.3.4"; "5.6.7.8"]))
    = {| ips := Some "1.2.3.4,5.6.7.8"; tag := None |} /\
  buildPostData tagged (Some (One "1.2.3.4"))
    = {| ips := None; tag := Some "test-tag" |} /\
  buildPostData none (Some (Many ["1.2.3.4"])) = {| ips := None; tag := None |}.
Proof. repeat split; reflexivity. Qed.

(** C9.  [mergeCountryOptions] sets [asnData] to true whenever the
    allowed or the blocked country list is a non-empty array, returns its
    input otherwise, and in both cases leaves every other field, the
    country lists among them, as it was. *)
Theorem mergeCountryOptions_spec (options : ProxyCheckOptions) :
  let merged := mergeCountryOptions options in
  let filtered :=
    (exists l, allowedCountries options = Some l /\ l <> []) \/
    (exists l, blockedCountries options = Some l /\ l <> []) in
  (filtered -> asnData merged = Some true) /\
  (~ filtered -> merged = options) /\
  apiKey merged = apiKey options /\
  allowedCountries merged = allowedCountries options /\
  blockedCountries merged = blockedCountries options /\
  tlsSecurity merged = tlsSecurity options /\
  infEngine merged = infEngine options /\
  riskData merged = riskData options /\
  vpnDetection merged = vpnDetection options /\
  dayRestrictor merged = dayRestrictor options /\
  queryTagging merged = queryTagging options /\
  customTag merged = customTag options /\
  maskAddress merged = maskAddress options.
Proof.
  intros merged filtered. subst merged filtered. unfold mergeCountryOptions.
  assert (Hne : forall o : option (list string),
            nonEmptyList o = true <-> exists l, o = Some l /\ l <> []).
  { intros [l|]; simpl; split.
    - intros H. exists l. split; [reflexivity|].
      intros ->. discriminate H.
    - intros (l' & [= <-] & Hl). destruct l; [contradiction | reflexivity].
    - discriminate.
    - intros (l & H & _). discriminate H. }
  destruct (nonEmptyList (allowedCountries options)
            || nonEmptyList (blockedCountries options)) eqn:Hc; simpl.
  - repeat split; try reflexivity.
    intros Hn. exfalso. apply Hn.
    apply orb_true_iff in Hc. destruct Hc as [H|H]; apply Hne in H; auto.
  - repeat split; try reflexivity.
    intros [H|H]; apply Hne in H; rewrite H in Hc;
      [discriminate | rewrite orb_true_r in Hc; discriminate].
Qed.

Lemma mergeCountryOptions_spec_witness :
  asnData (mergeCountryOptions
             (mkOptions None (Some false) (Some ["US"; "CA"]) None None
                None None None None None None None)) = Some true.
Proof.
  apply (proj1 (mergeCountryOptions_spec
                  (mkOptions None (Some false) (Some ["US"; "CA"]) None None
                     None None None None None None None))).
  left. exists ["US"; "CA"]. split; [reflexivity | discriminate].
Defined.

(** [config.test.ts], "mergeCountryOptions". *)
Example mergeCountryOptions_examples :
  let withAllowed := mkOptions None (Some false) (Some ["US"; "CA"]) None None
                       None None None None None None None in
  let plain := mkOptions None None None None None None None (Some 1) None
                 None None None in
  asnData (mergeCountryOptions withAllowed) = Some true /\
  mergeCountryOptions plain = plain.
Proof. split; reflexivity. Qed.

(** *** Address masking *)

Lemma prefix_at (c : ascii) (rest : string) :
  String.prefix "@" (String c rest) = Ascii.eqb c "@".
Proof.
  cbn [String.prefix]. destruct (ascii_dec "@" c) as [<-|N].
  - destruct rest; reflexivity.
  - symmetry. apply Ascii.eqb_neq. congruence.
Qed.

Lemma includes_countAt (s : string) :
  includes "@" s = negb (Nat.eqb (countAt s) 0).
Proof.
  induction s as [|c rest IH]; [reflexivity|].
  cbn [includes countAt]. rewrite prefix_at, IH.
  destruct (Ascii.eqb c "@"); reflexivity.
Qed.

Lemma split_length (s : string) :
  length (split "@" s) = S (countAt s).
Proof.
  induction s as [|c rest IH]; [reflexivity|].
  cbn [split countAt]. destruct (Ascii.eqb c "@"); simpl.
  - rewrite IH. reflexivity.
  - destruct (split "@" rest); simpl in *; [discriminate | exact IH].
Qed.

(** An address without [@] is left as it is. *)
Lemma maskEmail_no_at (address : string) :
  countAt address = 0%nat -> maskEmail address = address.
Proof.
  intros H. unfold maskEmail. rewrite includes_countAt, H. reflexivity.
Qed.

(** An address with exactly one [@] keeps its domain. *)
Lemma maskEmail_one_at (address : string) :
  countAt address = 1%nat ->
  maskEmail address = "anonymous@" +:+ domainPart address.
Proof.
  intros H. unfold maskEmail, domainPart.
  rewrite includes_countAt, H. simpl negb. cbv iota.
  pose proof (split_length address) as L. rewrite H in L.
  destruct (split "@" address) as [|a [|b [|c l]]]; try discriminate.
  reflexivity.
Qed.

(** With masking disabled the argument is returned as it is. *)
Lemma processAddresses_disabled (addresses : Addresses) :
  processAddresses addresses false = addresses.
Proof. reflexivity. Qed.

(** With masking enabled every address of a list is masked, in place. *)
Lemma processAddresses_enabled (addresses : Addresses) :
  processAddresses addresses true =
  match addresses with
  | One a => One (maskEmail a)
  | Many l => Many (map maskEmail l)
  end.
Proof. destruct addresses; reflexivity. Qed.

(** C10 fails on an address with more than one [@]: [split("@")] cuts at
    every [@] and the destructuring keeps the second piece only, so the
    masked address carries the text between the first two [@], not the
    domain. *)
Theorem processAddresses_truncates_domain :
  processAddresses (One "ops@team@example.com") true = One "anonymous@team" /\
  domainPart "ops@team@example.com" = "example.com" /\
  processAddresses (Many ["1.2.3.4"; "ops@team@example.com"]) true
    = Many ["1.2.3.4"; "anonymous@team"].
Proof. repeat split; reflexivity. Qed.

End OptionMergerFacts.

(** * Further properties of the engine *)

(** ** Classification and retry policy *)

Lemma axiosRequest_failed (w : World) (r : Run) (err : RawError) :
  transport w (calls r) = Failed err ->
  fst (axiosRequest w r) = inr (rejectionOf err).
Proof.
  intros H. unfold axiosRequest, rejectionOf. rewrite H.
  destruct (createErrorFromResponse err); reflexivity.
Qed.

Lemma axiosRequest_trace (w : World) (r : Run) :
  trace (snd (axiosRequest w r)) = (trace r ++ [EvTransport (calls r)])%list.
Proof.
  unfold axiosRequest.
  destruct (transport w (calls r)) as [resp|err]; simpl; [reflexivity|].
  destruct (createErrorFromResponse err); simpl;
    destruct (response err); reflexivity.
Qed.

Lemma axiosRequest_draws (w : World) (r : Run) :
  draws (snd (axiosRequest w r)) = draws r.
Proof.
  unfold axiosRequest.
  destruct (transport w (calls r)) as [resp|err]; simpl; [reflexivity|].
  destruct (createErrorFromResponse err); simpl;
    destruct (response err); reflexivity.
Qed.

(** X1.  The retry policy read on the raw transport failure: a failure
    with a response is retried exactly when its status is 429, or is 500
    or more with a body that is not [null]; a failure without response
    exactly when it carries a timeout indicator or a request was sent. *)
Theorem retry_policy_on_raw_failures (err : RawError) :
  isRetryableError (rejectionOf err) = true <->
  match response err with
  | Some resp =>
      status resp = 429 \/ (500 <= status resp /\ data resp <> DNullish)
  | None => timeoutIndicator err \/ hasRequest err = true
  end.
Proof.
  unfold rejectionOf, createErrorFromResponse, timeoutIndicator.
  destruct (response err) as [resp|].
  - destruct (status resp =? 429) eqn:H429.
    { apply Z.eqb_eq in H429. simpl. split; auto. }
    apply Z.eqb_neq in H429.
    destruct (status resp =? 401) eqn:H401.
    { apply Z.eqb_eq in H401. simpl. split; [discriminate|].
      intros [H|[H _]]; lia. }
    apply Z.eqb_neq in H401.
    unfold fromResponse.
    destruct (data resp) as [|text|message error] eqn:Hdata.
    + simpl. split; [discriminate|]. intros [H|[_ H]]; [lia | contradiction].
    + unfold isRetryableError. simpl.
      destruct ((400 <=? status resp) && (status resp <? 500)) eqn:H4.
      * apply andb_true_iff in H4. split; [discriminate|].
        intros [H|[H _]]; lia.
      * apply andb_false_iff in H4.
        destruct (500 <=? status resp) eqn:H5.
        -- split; [|reflexivity]. intros _. right. split; [lia | discriminate].
        -- split; [discriminate|]. intros [H|[H _]]; lia.
    + unfold isRetryableError. simpl.
      destruct ((400 <=? status resp) && (status resp <? 500)) eqn:H4.
      * apply andb_true_iff in H4. split; [discriminate|].
        intros [H|[H _]]; lia.
      * apply andb_false_iff in H4.
        destruct (500 <=? status resp) eqn:H5.
        -- split; [|reflexivity]. intros _. right. split; [lia | discriminate].
        -- split; [discriminate|]. intros [H|[H _]]; lia.
  - destruct (decide (rawCode err = Some "ECONNABORTED")) as [Hc|Hc].
    { simpl. split; auto. }
    destruct (rawMessage err) as [m|] eqn:Hm.
    + destruct (includes "timeout" m) eqn:Hi.
      { simpl. split; [|reflexivity]. intros _. left. right. eauto. }
      destruct (hasRequest err) eqn:Hr.
      { simpl. split; auto. }
      simpl. split; [discriminate|].
      intros [[H|(m' & [= <-] & H)]|H]; congruence.
    + destruct (hasRequest err) eqn:Hr.
      { simpl. split; auto. }
      simpl. split; [discriminate|].
      intros [[H|(m' & H & _)]|H]; congruence.
Qed.

(** X2.  The classifier keeps the HTTP status: the typed error carries
    the status of the response as its status code, and none when there
    was no response; it is a rate-limit error exactly for status 429. *)
Theorem classifier_keeps_status (err : RawError) (e : ProxyCheckError) :
  createErrorFromResponse err = Returned e ->
  errorStatusCode e = status <$> response err /\
  (isRateLimitError (ThError e) = true <->
   exists resp, response err = Some resp /\ status resp = 429).
Proof.
  unfold createErrorFromResponse.
  destruct (response err) as [resp|]; simpl.
  - destruct (status resp =? 429) eqn:H429.
    { apply Z.eqb_eq in H429. intros [= <-]. simpl. split; [congruence|].
      split; eauto. }
    apply Z.eqb_neq in H429.
    destruct (status resp =? 401) eqn:H401.
    { apply Z.eqb_eq in H401. intros [= <-]. simpl. split; [congruence|].
      split; [discriminate|]. intros (resp' & [= <-] & H). contradiction. }
    unfold fromResponse. destruct (data resp); [discriminate|..];
      intros [= <-]; simpl; (split; [reflexivity|]);
      (split; [discriminate|]); intros (resp' & [= <-] & H); contradiction.
  - destruct (decide _).
    { intros [= <-]. simpl. split; [reflexivity|].
      split; [discriminate|]. intros (resp & H & _). discriminate. }
    destruct (match rawMessage err with Some m => includes "timeout" m | None => false end).
    { intros [= <-]. simpl. split; [reflexivity|].
      split; [discriminate|]. intros (resp & H & _). discriminate. }
    destruct (hasRequest err); intros [= <-]; simpl; (split; [reflexivity|]);
      (split; [discriminate|]); intros (resp & H & _); discriminate.
Qed.

Lemma classifier_keeps_status_witness :
  errorStatusCode
    (APIError "API error: 503" 503 (Some (DPrimitive "Service Unavailable")) None)
  = Some 503.
Proof.
  pose (err := failureWith
          (mkResponse 503 (DPrimitive "Service Unavailable") (∅ : Headers))).
  assert (H : createErrorFromResponse err
              = Returned (APIError "API error: 503" 503
                            (Some (DPrimitive "Service Unavailable")) None))
    by (vm_compute; reflexivity).
  exact (proj1 (classifier_keeps_status err _ H)).
Defined.

(** ** More on the retry loop *)

Section RetryLoopFacts.
Variable w : World.

Lemma axiosRequest_rejected (r r1 : Run) (error : Thrown) :
  axiosRequest w r = (inr error, r1) ->
  exists err, transport w (calls r) = Failed err /\ error = rejectionOf err.
Proof.
  intros H. destruct (transport w (calls r)) as [resp|err] eqn:Htr.
  - unfold axiosRequest in H. rewrite Htr in H. discriminate H.
  - exists err. split; [reflexivity|].
    pose proof (axiosRequest_failed w r err Htr) as F.
    rewrite H in F. simpl in F. congruence.
Qed.

Lemma axiosRequest_client (r : Run) :
  (forall k resp, responseOf (transport w k) = Some resp ->
     headerPresent (headers resp) "x-ratelimit-limit" = false) ->
  client (snd (axiosRequest w r)) = client r.
Proof.
  intros Hno. unfold axiosRequest.
  pose proof (Hno (calls r)) as H.
  destruct (transport w (calls r)) as [resp|err]; simpl in *.
  - unfold updateRateLimitInfo. rewrite (H resp eq_refl). reflexivity.
  - destruct (response err) as [resp|];
      destruct (createErrorFromResponse err); simpl;
      try reflexivity;
      unfold updateRateLimitInfo; rewrite (H resp eq_refl); reflexivity.
Qed.

Lemma sleeps_snoc (tr : list Event) (ev : Event) :
  sleeps (tr ++ [ev]) =
  (sleeps tr ++ match ev with EvSleep ms => [ms] | _ => [] end)%list.
Proof. unfold sleeps. rewrite omap_app. destruct ev; reflexivity. Qed.

(** What one run of the loop does to the counters, the trace and the
    client. *)
Lemma requestLoop_run (fuel : nat) : forall attempt lastError r,
  Z.max 0 (retries (_config (client r)) + 1 - attempt) < Z.of_nat fuel ->
  let out := fst (requestLoop w fuel attempt lastError r) in
  let r' := snd (requestLoop w fuel attempt lastError r) in
  (calls r <= calls r')%nat /\
  (attempt <= retries (_config (client r)) -> (calls r < calls r')%nat) /\
  length (sleeps (trace r'))
    = (length (sleeps (trace r)) + Nat.pred (calls r' - calls r))%nat /\
  (forall error, out = Rejects error -> (calls r < calls r')%nat ->
     exists err, transport w (calls r' - 1) = Failed err /\
                 error = rejectionOf err) /\
  ((forall k resp, responseOf (transport w k) = Some resp ->
      headerPresent (headers resp) "x-ratelimit-limit" = false) ->
   client r' = client r).
Proof.
  induction fuel as [|fuel IH]; intros attempt lastError r Hfuel; [lia|].
  simpl requestLoop.
  destruct (attempt <=? retries (_config (client r))) eqn:Hguard.
  2:{ apply Z.leb_gt in Hguard. simpl.
      rewrite sleeps_snoc, length_app. simpl.
      repeat split; try lia; try (intros; reflexivity). }
  apply Z.leb_le in Hguard.
  pose proof (axiosRequest_config w r) as Hcfg.
  pose proof (axiosRequest_calls w r) as Hcalls.
  pose proof (axiosRequest_trace w r) as Htrace.
  pose proof (axiosRequest_client r) as Hclient.
  destruct (axiosRequest w r) as [[resp|error] r1] eqn:Hreq;
    simpl in Hcfg, Hcalls, Htrace, Hclient.
  - simpl. rewrite sleeps_snoc, length_app, Htrace, sleeps_snoc, length_app.
    simpl. rewrite Hcalls.
    repeat split; try lia; [discriminate | exact Hclient].
  - destruct (axiosRequest_rejected r r1 error Hreq) as (err & Htr & Herr).
    rewrite Hcfg.
    assert (Hterminal :
      let out := fst (failTerminal error r1) in
      let r' := snd (failTerminal error r1) in
      (calls r <= calls r')%nat /\
      (attempt <= retries (_config (client r)) -> (calls r < calls r')%nat) /\
      length (sleeps (trace r'))
        = (length (sleeps (trace r)) + Nat.pred (calls r' - calls r))%nat /\
      (forall error0, out = Rejects error0 -> (calls r < calls r')%nat ->
         exists err0, transport w (calls r' - 1) = Failed err0 /\
                      error0 = rejectionOf err0) /\
      ((forall k resp, responseOf (transport w k) = Some resp ->
          headerPresent (headers resp) "x-ratelimit-limit" = false) ->
       client r' = client r)).
    { simpl. rewrite sleeps_snoc, length_app, Htrace, sleeps_snoc, length_app.
      simpl. rewrite Hcalls.
      repeat split; try lia; [|exact Hclient].
      intros error0 [= <-] _. exists err.
      replace (S (calls r) - 1)%nat with (calls r) by lia. auto. }
    destruct (attempt =? retries (_config (client r))) eqn:Hlast;
      [exact Hterminal|].
    apply Z.eqb_neq in Hlast.
    destruct (isRetryableError error) eqn:Hretry; simpl negb; cbv iota;
      [|exact Hterminal].
    cbv beta iota zeta delta [mathRandom].
    match goal with
    | |- context [requestLoop w fuel (attempt + 1) error ?r2] =>
        pose proof (IH (attempt + 1) error r2) as IH2;
        set (next := r2) in *
    end.
    assert (Hn_cfg : _config (client next) = _config (client r))
      by (subst next; simpl; exact Hcfg).
    assert (Hn_calls : calls next = S (calls r))
      by (subst next; simpl; exact Hcalls).
    assert (Hn_sleeps : length (sleeps (trace next))
                        = S (length (sleeps (trace r)))).
    { subst next. simpl. rewrite !sleeps_snoc, !length_app, Htrace,
        sleeps_snoc, length_app. simpl. lia. }
    assert (Hn_client : client next = client r1) by (subst next; reflexivity).
    rewrite Hn_cfg, Hn_calls, Hn_sleeps, Hn_client in IH2.
    destruct IH2 as (L & P & S & E & C); [lia|].
    specialize (P ltac:(lia)).
    repeat split; try lia.
    + intros error0 Hout _. apply E; [exact Hout | lia].
    + intros Hno. rewrite (C Hno). apply Hclient. exact Hno.
Qed.

End RetryLoopFacts.

(** The state in which [request] enters its loop. *)
Lemma request_unfold (w : World) (r : Run) :
  exists r1,
    request w r
    = requestLoop w (S (Z.to_nat (retries (_config (client r)) + 1))) 0
        ThUndefined r1 /\
    client r1 = client r /\ calls r1 = calls r /\
    sleeps (trace r1) = sleeps (trace r).
Proof.
  exists (log LogDebug "HTTP request starting" (snd (mathRandom w r))).
  split; [reflexivity|]. repeat split.
  simpl. rewrite sleeps_snoc. simpl. apply app_nil_r.
Qed.

(** X3.  Delays are awaited between attempts only: with a non-negative
    retry count, the number of sleeps of one [request] is the number of
    its transport calls minus one, whatever the outcome. *)
Theorem request_sleeps_between_attempts (w : World) (r : Run) :
  0 <= retries (_config (client r)) ->
  let r' := snd (request w r) in
  (length (sleeps (trace r')) + 1
   = length (sleeps (trace r)) + (calls r' - calls r))%nat.
Proof.
  intros Hretries r'. subst r'.
  destruct (request_unfold w r) as (r1 & -> & Hc & Hk & Hs).
  match goal with
  | |- context [requestLoop w ?fuel 0 ThUndefined r1] =>
      pose proof (requestLoop_run w fuel 0 ThUndefined r1) as H
  end.
  rewrite Hc, Hk, Hs in H. destruct H as (L & P & S & _); [lia|].
  specialize (P Hretries). lia.
Qed.

Lemma request_sleeps_between_attempts_witness :
  let r' := snd (request (failAlways (rateLimited "abc") (1 # 2))
                   (start defaultClient)) in
  (length (sleeps (trace r')) + 1 = 0 + (calls r' - 0))%nat.
Proof.
  apply (request_sleeps_between_attempts
           (failAlways (rateLimited "abc") (1 # 2)) (start defaultClient)).
  vm_compute. discriminate.
Defined.

(** X6.  The error [request] rejects with is the last one: with a
    non-negative retry count it is what the response interceptor made of
    the failure of the last transport call. *)
Theorem request_rejects_with_last_error (w : World) (r : Run)
    (error : Thrown) :
  0 <= retries (_config (client r)) ->
  fst (request w r) = Rejects error ->
  exists err,
    transport w (calls (snd (request w r)) - 1) = Failed err /\
    error = rejectionOf err.
Proof.
  intros Hretries.
  destruct (request_unfold w r) as (r1 & -> & Hc & Hk & Hs).
  match goal with
  | |- context [requestLoop w ?fuel 0 ThUndefined r1] =>
      pose proof (requestLoop_run w fuel 0 ThUndefined r1) as H
  end.
  rewrite Hc, Hk in H. destruct H as (L & P & _ & E & _); [lia|].
  intros Hout. apply E; [exact Hout | apply P; exact Hretries].
Qed.

Lemma request_rejects_with_last_error_witness :
  exists err,
    transport (failAlways nullBody500 (1 # 2))
      (calls (snd (request (failAlways nullBody500 (1 # 2))
                     (start defaultClient))) - 1) = Failed err /\
    typeError = rejectionOf err.
Proof.
  apply (request_rejects_with_last_error
           (failAlways nullBody500 (1 # 2)) (start defaultClient) typeError).
  - vm_compute. discriminate.
  - vm_compute. reflexivity.
Defined.

(** X7.  [request] touches the client through rate-limit headers only:
    the configuration is never changed, and when no response carries an
    [x-ratelimit-limit] header the whole client, snapshot included, is
    left as it was. *)
Theorem request_preserves_client (w : World) (r : Run) :
  _config (client (snd (request w r))) = _config (client r) /\
  ((forall k resp, responseOf (transport w k) = Some resp ->
      headerPresent (headers resp) "x-ratelimit-limit" = false) ->
   client (snd (request w r)) = client r).
Proof.
  destruct (request_unfold w r) as (r1 & -> & Hc & Hk & Hs).
  match goal with
  | |- context [requestLoop w ?fuel 0 ThUndefined r1] =>
      pose proof (requestLoop_run w fuel 0 ThUndefined r1) as H;
      destruct (requestLoop_spec w fuel 0 ThUndefined r1)
        as (out & r' & E & C & _)
  end.
  { rewrite Hc. lia. }
  destruct H as (_ & _ & _ & _ & K); [rewrite Hc; lia|].
  rewrite E in K |- *. cbn [fst snd] in K |- *. split; [congruence|].
  intros Hno. rewrite (K Hno). exact Hc.
Qed.

(** A 4xx other than 429 is never retryable, whatever its body. *)
Lemma rejection_client_error (err : RawError) (resp : Response) :
  response err = Some resp ->
  400 <= status resp < 500 -> status resp <> 429 ->
  isRetryableError (rejectionOf err) = false.
Proof.
  intros Hresp Hrange H429.
  unfold rejectionOf, createErrorFromResponse. rewrite Hresp.
  replace (status resp =? 429) with false by (symmetry; apply Z.eqb_neq; lia).
  destruct (status resp =? 401); [reflexivity|].
  unfold fromResponse.
  destruct (data resp); [reflexivity|..];
    unfold isRetryableError; simpl;
    replace ((400 <=? status resp) && (status resp <? 500)) with true
      by (symmetry; apply andb_true_iff; lia);
    reflexivity.
Qed.

(** X4.  A failure with a 4xx status other than 429 ends the request at
    once: with a non-negative retry count [request] makes exactly one
    transport call, awaits no delay and rejects with the classified
    error. *)
Theorem client_error_is_terminal (w : World) (r : Run) (err : RawError)
    (resp : Response) :
  0 <= retries (_config (client r)) ->
  transport w (calls r) = Failed err ->
  response err = Some resp ->
  400 <= status resp < 500 -> status resp <> 429 ->
  fst (request w r) = Rejects (rejectionOf err) /\
  calls (snd (request w r)) = S (calls r) /\
  sleeps (trace (snd (request w r))) = sleeps (trace r).
Proof.
  intros Hretries Htr Hresp Hrange H429.
  pose proof (rejection_client_error err resp Hresp Hrange H429) as Hnot.
  destruct (request_unfold w r) as (r1 & -> & Hc & Hk & Hs).
  rewrite <- Hk in Htr.
  pose proof (axiosRequest_failed w r1 err Htr) as Hfst.
  pose proof (axiosRequest_calls w r1) as Hcalls.
  pose proof (axiosRequest_trace w r1) as Htrace.
  pose proof (axiosRequest_config w r1) as Hcfg.
  simpl requestLoop.
  replace (0 <=? retries (_config (client r1))) with true
    by (symmetry; apply Z.leb_le; rewrite Hc; lia).
  destruct (axiosRequest w r1) as [res r2]. simpl in *. subst res.
  rewrite Hnot. simpl negb.
  assert (Hdone : fst (failTerminal (rejectionOf err) r2)
                  = Rejects (rejectionOf err) /\
                  calls (snd (failTerminal (rejectionOf err) r2)) = S (calls r) /\
                  sleeps (trace (snd (failTerminal (rejectionOf err) r2)))
                  = sleeps (trace r)).
  { simpl. rewrite sleeps_snoc, Htrace, sleeps_snoc. simpl.
    rewrite !app_nil_r. repeat split; congruence. }
  destruct (retries (_config (client r2))); exact Hdone.
Qed.

Lemma client_error_is_terminal_witness :
  let err := failureWith (mkResponse 404 (DObject (Some "Not found") None)
                            (∅ : Headers)) in
  let w := failAlways err (1 # 2) in
  fst (request w (start defaultClient)) = Rejects (rejectionOf err) /\
  calls (snd (request w (start defaultClient))) = 1%nat /\
  sleeps (trace (snd (request w (start defaultClient)))) = [].
Proof.
  intros err w.
  apply (client_error_is_terminal w (start defaultClient) err
           (mkResponse 404 (DObject (Some "Not found") None) (∅ : Headers))).
  - vm_compute. discriminate.
  - reflexivity.
  - reflexivity.
  - simpl. lia.
  - simpl. lia.
Defined.

(** X5.  When every transport call fails with a retryable error, a
    [request] with retry count [retries >= 0] makes exactly
    [retries + 1] calls, awaits [retries] delays and rejects. *)
Theorem persistent_failure_exhausts_retries (w : World) (r : Run) :
  0 <= retries (_config (client r)) ->
  (forall k, exists err,
      transport w k = Failed err /\ isRetryableError (rejectionOf err) = true) ->
  let r' := snd (request w r) in
  Z.of_nat (calls r' - calls r) = retries (_config (client r)) + 1 /\
  Z.of_nat (length (sleeps (trace r')) - length (sleeps (trace r)))
    = retries (_config (client r)) /\
  exists error, fst (request w r) = Rejects error.
Proof.
  intros Hretries Hall r'. subst r'.
  destruct (request_unfold w r) as (r1 & -> & Hc & Hk & Hs).
  match goal with
  | |- context [requestLoop w ?fuel 0 ThUndefined r1] =>
      pose proof (requestLoop_run w fuel 0 ThUndefined r1) as H;
      destruct (requestLoop_spec w fuel 0 ThUndefined r1)
        as (out & r' & E & C & L & B & O)
  end.
  { rewrite Hc. lia. }
  destruct H as (_ & P & S & Elast & _); [rewrite Hc; lia|].
  rewrite E in *. cbn [fst snd] in *.
  rewrite Hc in *. rewrite Hk in *. rewrite Hs in *.
  specialize (P Hretries).
  destruct out as [body|error|]; [| |contradiction].
  - destruct O as (resp & _ & Hful & _).
    destruct (Hall (calls r' - 1)%nat) as (err & Hfail & _). congruence.
  - replace (0 <=? retries (_config (client r))) with true in O
      by (symmetry; apply Z.leb_le; lia).
    destruct (Elast error eq_refl P) as (err & Hfail & ->).
    destruct (Hall (calls r' - 1)%nat) as (err' & Hfail' & Hretry).
    assert (err' = err) by congruence. subst err'.
    destruct O as [O|O]; [|congruence].
    split; [lia|]. split; [lia|]. eauto.
Qed.

Lemma persistent_failure_exhausts_retries_witness :
  let w := failAlways (failureWith (mkResponse 503 (DPrimitive "")
                                      (∅ : Headers))) (1 # 2) in
  let r' := snd (request w (start defaultClient)) in
  Z.of_nat (calls r' - 0) = 3 + 1 /\
  Z.of_nat (length (sleeps (trace r')) - 0) = 3 /\
  exists error, fst (request w (start defaultClient)) = Rejects error.
Proof.
  intros w.
  apply (persistent_failure_exhausts_retries w (start defaultClient)).
  - vm_compute. discriminate.
  - intros k. eexists. split; [reflexivity|]. vm_compute. reflexivity.
Defined.

(** X8.  With a non-negative base delay the backoff delay is never
    negative and never shrinks when the attempt index or the random
    value grows. *)
Theorem calculateDelay_monotone (attempt attempt' : Z) (baseDelay rnd rnd' : Q) :
  (0 <= baseDelay)%Q -> attempt <= attempt' -> (0 <= rnd)%Q -> (rnd <= rnd')%Q ->
  (0 <= calculateDelay attempt baseDelay rnd)%Q /\
  (calculateDelay attempt baseDelay rnd
   <= calculateDelay attempt' baseDelay rnd')%Q.
Proof.
  intros Hb Ha H0 Hr. unfold calculateDelay.
  pose proof representable_0 as R0. unfold Double.representable in R0.
  assert (Hp : (0 < 2 ^ attempt)%Q) by (apply Qpower_0_lt; reflexivity).
  assert (Hpow : (2 ^ attempt <= 2 ^ attempt')%Q)
    by (apply Qpower_le_compat_l; [exact Ha | discriminate]).
  assert (Hbase : (baseDelay * 2 ^ attempt <= baseDelay * 2 ^ attempt')%Q).
  { rewrite !(Qmult_comm baseDelay). apply Qmult_le_compat_r; assumption. }
  assert (Hbase0 : (0 <= baseDelay * 2 ^ attempt)%Q)
    by (apply Qmult_le_0_compat; [assumption | apply Qlt_le_weak; assumption]).
  pose proof (fl_mono _ _ Hbase0) as F0.
  pose proof (fl_mono _ _ Hbase) as F1.
  assert (J0 : (Double.fl 0 <= Double.fl (rnd * 1000))%Q)
    by (apply fl_mono; lra).
  assert (J1 : (Double.fl (rnd * 1000) <= Double.fl (rnd' * 1000))%Q)
    by (apply fl_mono; lra).
  split.
  - apply Qle_trans with (Double.fl 0); [lra|]. apply fl_mono. lra.
  - apply fl_mono. lra.
Qed.

Lemma calculateDelay_monotone_witness :
  (0 <= calculateDelay 0 1000 (1 # 4))%Q /\
  (calculateDelay 0 1000 (1 # 4) <= calculateDelay 1 1000 (1 # 2))%Q.
Proof.
  apply calculateDelay_monotone.
  - discriminate.
  - lia.
  - discriminate.
  - discriminate.
Defined.

(** ** Form bodies *)

Section FormBodies.
Import OptionMerger.

Lemma occurs_step (c : ascii) (t : string) :
  let encoded :=
    if Ascii.eqb c " " then String "+" t
    else if formSafe c then String c t
    else String "%"
           (String (hexDigit (N_of_ascii c / 16))
              (String (hexDigit (N_of_ascii c mod 16)) t)) in
  occurs "&" encoded = occurs "&" t /\ occurs "=" encoded = occurs "=" t.
Proof.
  destruct c as [[] [] [] [] [] [] [] []]; vm_compute; split; reflexivity.
Qed.

Lemma formEncode_separators (s : string) :
  occurs "&" (formEncode s) = false /\ occurs "=" (formEncode s) = false.
Proof.
  induction s as [|c rest [IH1 IH2]]; [split; reflexivity|].
  cbn [formEncode].
  destruct (occurs_step c (formEncode rest)) as [H1 H2].
  cbv zeta in H1, H2. rewrite H1, H2. auto.
Qed.

Lemma formDecode_step (c : ascii) (t : string) :
  formDecode
    (if Ascii.eqb c " " then String "+" t
     else if formSafe c then String c t
     else String "%"
            (String (hexDigit (N_of_ascii c / 16))
               (String (hexDigit (N_of_ascii c mod 16)) t)))
  = String c (formDecode t).
Proof. destruct c as [[] [] [] [] [] [] [] []]; reflexivity. Qed.

Lemma formDecode_encode (s : string) : formDecode (formEncode s) = s.
Proof.
  induction s as [|c rest IH]; [reflexivity|].
  cbn [formEncode]. rewrite formDecode_step, IH. reflexivity.
Qed.

Lemma split_cons (sep c : ascii) (s : string) :
  split sep (String c s) =
  if Ascii.eqb c sep then EmptyString :: split sep s
  else match split sep s with
       | piece :: pieces => String c piece :: pieces
       | [] => [String c EmptyString]
       end.
Proof. reflexivity. Qed.

Lemma split_no_separator (sep : ascii) (s : string) :
  occurs sep s = false -> split sep s = [s].
Proof.
  induction s as [|c rest IH]; [reflexivity|].
  rewrite split_cons. change (occurs sep (String c rest))
    with (Ascii.eqb c sep || occurs sep rest).
  destruct (Ascii.eqb c sep); [discriminate|].
  intros H. rewrite (IH H). reflexivity.
Qed.

Lemma split_append (sep : ascii) (a b : string) :
  occurs sep a = false ->
  split sep (a +:+ String sep b) = a :: split sep b.
Proof.
  induction a as [|c rest IH].
  - intros _. change (split sep (String sep b) = "" :: split sep b).
    rewrite split_cons, Ascii.eqb_refl. reflexivity.
  - change (String c rest +:+ String sep b)
      with (String c (rest +:+ String sep b)).
    rewrite split_cons. change (occurs sep (String c rest))
      with (Ascii.eqb c sep || occurs sep rest).
    destruct (Ascii.eqb c sep); [discriminate|].
    intros H. rewrite (IH H). reflexivity.
Qed.

Lemma occurs_append (c : ascii) (a b : string) :
  occurs c (a +:+ b) = occurs c a || occurs c b.
Proof.
  induction a as [|d rest IH]; [reflexivity|].
  change (occurs c (String d rest +:+ b))
    with (Ascii.eqb d c || occurs c (rest +:+ b)).
  rewrite IH. apply orb_assoc.
Qed.

Lemma split_concat (sep : ascii) (pieces : list string) :
  pieces <> [] ->
  Forall (fun p => occurs sep p = false) pieces ->
  split sep (String.concat (String sep EmptyString) pieces) = pieces.
Proof.
  induction pieces as [|p rest IH]; [contradiction|].
  intros _ Hall. inversion Hall as [|? ? Hp Hrest]; subst.
  destruct rest as [|q rest'].
  - simpl. apply split_no_separator. exact Hp.
  - change (String.concat (String sep EmptyString) (p :: q :: rest'))
      with (p +:+ String sep (String.concat (String sep EmptyString) (q :: rest'))).
    rewrite split_append by exact Hp.
    rewrite IH; [reflexivity | discriminate | exact Hrest].
Qed.

Lemma parsePair_encoded (name value : string) :
  parsePair (formEncode name +:+ "=" +:+ formEncode value) = (name, value).
Proof.
  unfold parsePair.
  destruct (formEncode_separators name) as [_ Hn].
  destruct (formEncode_separators value) as [_ Hv].
  change (formEncode name +:+ "=" +:+ formEncode value)
    with (formEncode name +:+ String "=" (formEncode value)).
  rewrite split_append by exact Hn.
  rewrite split_no_separator by exact Hv.
  rewrite !formDecode_encode. reflexivity.
Qed.

(** A serialized body is read back as the pairs it was made of. *)
Lemma parseForm_formToString (pairs : list (string * string)) :
  parseForm (formToString pairs) = pairs.
Proof.
  unfold parseForm, formToString.
  destruct pairs as [|kv rest]; [reflexivity|].
  set (piece := fun kv : string * string =>
                  formEncode (fst kv) +:+ "=" +:+ formEncode (snd kv)).
  rewrite split_concat.
  - assert (Hkeep : forall l : list (string * string),
              filter (fun p => p <> EmptyString) (map piece l) = map piece l).
    { induction l as [|x l IH]; [reflexivity|].
      simpl. rewrite filter_cons. destruct (decide _) as [_|N].
      - rewrite IH. reflexivity.
      - exfalso. apply N. unfold piece.
        destruct (formEncode (fst x)); discriminate. }
    rewrite Hkeep. rewrite map_map.
    erewrite map_ext; [apply map_id|].
    intros [k v]. unfold piece. simpl. apply parsePair_encoded.
  - discriminate.
  - apply Forall_forall. intros p Hin. apply list_elem_of_In in Hin.
    apply in_map_iff in Hin. destruct Hin as ([k v] & <- & _).
    unfold piece. simpl.
    destruct (formEncode_separators k) as [Hk _].
    destruct (formEncode_separators v) as [Hv _].
    rewrite !occurs_append, Hk, Hv. reflexivity.
Qed.

(** X9.  The body [postForm] sends determines the form fields: two data
    objects give the same body only if they have the same entries,
    values that are [undefined] or [null] left out.  No name or value can
    inject a separator. *)
Theorem postFormBody_unambiguous
    (data1 data2 : list (string * option string)) :
  postFormBody (Some data1) = postFormBody (Some data2) ->
  appendedEntries data1 = appendedEntries data2.
Proof.
  simpl. intros H.
  rewrite <- (parseForm_formToString (appendedEntries data1)), H.
  apply parseForm_formToString.
Qed.

Lemma postFormBody_unambiguous_witness :
  appendedEntries [("ips", Some "1.2.3.4,5.6.7.8"); ("tag", None)]
  = appendedEntries [("ips", Some "1.2.3.4,5.6.7.8")].
Proof.
  apply postFormBody_unambiguous. reflexivity.
Defined.

(** The batch body of the wire contract, and a value with separators. *)
Example postFormBody_examples :
  postFormBody (Some [("ips", Some "1.2.3.4,5.6.7.8"); ("tag", Some "a b")])
  = "ips=1.2.3.4%2C5.6.7.8&tag=a+b" /\
  postFormBody (Some [("data", Some "x&y=z"); ("skip", None)]) = "data=x%26y%3Dz" /\
  postFormBody None = "".
Proof. repeat split; reflexivity. Qed.

End FormBodies.


(** * Query parameters and the check service *)

Section QueryParameters.
Import OptionMerger Query.

(** X10.  The [key] parameter is the per-request [apiKey] option when
    that is a non-empty string, and the client's key otherwise; an empty
    key is never sent. *)
Theorem buildQueryParams_key
    (options : ProxyCheckOptions) (clientKey : option string) (s : string) :
  key (buildQueryParams options clientKey) = Some s <->
  s <> EmptyString /\
  (OptionMerger.apiKey options = Some s \/
   ((OptionMerger.apiKey options = None \/
     OptionMerger.apiKey options = Some EmptyString) /\
    clientKey = Some s)).
Proof.
  unfold buildQueryParams, orOption. cbn [key].
  destruct (OptionMerger.apiKey options) as [[|c a]|];
    [ | | ]; cbn [truthyString];
    try (destruct clientKey as [[|d b]|]; cbn [truthyString]);
    split; intros H;
    try (injection H as <-);
    try discriminate;
    try (split; [discriminate | auto]);
    destruct H as (Hs & [H | ([H | H] & H')]);
    try discriminate; try congruence.
Qed.

Lemma mergeCountryOptions_fields (options : ProxyCheckOptions) :
  let merged := mergeCountryOptions options in
  OptionMerger.apiKey merged = OptionMerger.apiKey options /\
  vpnDetection merged = vpnDetection options /\
  riskData merged = riskData options /\
  infEngine merged = infEngine options /\
  dayRestrictor merged = dayRestrictor options /\
  queryTagging merged = queryTagging options /\
  customTag merged = customTag options /\
  maskAddress merged = maskAddress options /\
  allowedCountries merged = allowedCountries options /\
  blockedCountries merged = blockedCountries options /\
  asnData merged =
    (if nonEmptyList (allowedCountries options) ||
        nonEmptyList (blockedCountries options)
     then Some true else asnData options).
Proof.
  unfold mergeCountryOptions.
  destruct (nonEmptyList (allowedCountries options) ||
            nonEmptyList (blockedCountries options));
    cbn; repeat split; reflexivity.
Qed.

(** X11.  After [mergeCountryOptions], the query asks for ASN data
    ([asn=1]) exactly when the caller asked for it or filters by country,
    and every other parameter is what it is without the merge. *)
Theorem country_filter_requests_asn
    (options : ProxyCheckOptions) (clientKey : option string) :
  let plain := buildQueryParams options clientKey in
  let merged := buildQueryParams (mergeCountryOptions options) clientKey in
  (asn merged = Some 1 <->
     asnData options = Some true \/
     nonEmptyList (allowedCountries options) = true \/
     nonEmptyList (blockedCountries options) = true) /\
  (asn merged = Some 1 \/ asn merged = None) /\
  merged = {| key := key plain; vpn := vpn plain; asn := asn merged;
              risk := risk plain; inf := inf plain; days := days plain;
              node := Some 1; port := Some 1; seen := Some 1 |}.
Proof.
  cbv zeta.
  destruct (mergeCountryOptions_fields options)
    as (Hk & Hv & Hr & Hi & Hd & _ & _ & _ & _ & _ & Ha).
  cbv zeta in *.
  unfold buildQueryParams. cbn [key vpn asn risk inf days node port seen].
  rewrite Hk, Hv, Hr, Hi, Hd, Ha.
  split; [|split; [|reflexivity]].
  - destruct (nonEmptyList (allowedCountries options));
      destruct (nonEmptyList (blockedCountries options));
      destruct (asnData options) as [[]|]; cbn;
      split; intros H; auto; try discriminate;
      destruct H as [H | [H | H]]; discriminate.
  - destruct (isTrue _); auto.
Qed.

End QueryParameters.

(** ** Masking is idempotent *)

Section Masking.
Import OptionMerger.

Lemma countAt_occurs (s : string) :
  occurs "@" s = negb (Nat.eqb (countAt s) 0).
Proof.
  induction s as [|c rest IH]; [reflexivity|].
  cbn [occurs countAt]. rewrite IH.
  destruct (Ascii.eqb c "@"); reflexivity.
Qed.

Lemma countAt_append (a b : string) :
  countAt (a +:+ b) = (countAt a + countAt b)%nat.
Proof.
  induction a as [|c rest IH]; [reflexivity|].
  change (String c rest +:+ b) with (String c (rest +:+ b)).
  cbn [countAt]. rewrite IH. lia.
Qed.

Lemma split_pieces (sep : ascii) (s : string) :
  Forall (fun piece => occurs sep piece = false) (split sep s).
Proof.
  induction s as [|c rest IH]; [repeat constructor|].
  rewrite split_cons. destruct (Ascii.eqb c sep) eqn:E.
  - constructor; [reflexivity | exact IH].
  - destruct (split sep rest) as [|p ps].
    + constructor; [|constructor]. cbn [occurs]. rewrite E. reflexivity.
    + inversion IH as [|? ? Hp Hps]; subst.
      constructor; [|exact Hps]. cbn [occurs]. rewrite E. exact Hp.
Qed.

Lemma maskEmail_masked (address : string) :
  countAt address <> 0%nat ->
  exists domain,
    maskEmail address = "anonymous@" +:+ domain /\ occurs "@" domain = false.
Proof.
  intros H. unfold maskEmail. rewrite includes_countAt.
  destruct (Nat.eqb_spec (countAt address) 0%nat) as [E|_]; [contradiction|].
  cbn [negb].
  pose proof (split_length address) as L.
  pose proof (split_pieces "@" address) as P.
  destruct (split "@" address) as [|x [|d rest]]; simpl in L.
  - discriminate.
  - lia.
  - exists d. split; [reflexivity|].
    inversion P as [|? ? _ P']. inversion P'. assumption.
Qed.

(** X12.  Masking an already masked address changes nothing, and a masked
    address holds at most one [@]: none exactly when the input held
    none. *)
Theorem maskEmail_idempotent (address : string) :
  maskEmail (maskEmail address) = maskEmail address /\
  (countAt (maskEmail address) <= 1)%nat /\
  (countAt (maskEmail address) = 0%nat <-> countAt address = 0%nat).
Proof.
  destruct (Nat.eq_dec (countAt address) 0%nat) as [E|N].
  - rewrite (maskEmail_no_at _ E), (maskEmail_no_at _ E).
    repeat split; auto; lia.
  - destruct (maskEmail_masked address N) as (d & -> & Hd).
    assert (C : countAt ("anonymous@" +:+ d) = 1%nat).
    { rewrite countAt_append. rewrite countAt_occurs in Hd.
      destruct (Nat.eqb_spec (countAt d) 0%nat) as [->|]; [reflexivity|discriminate]. }
    rewrite C. split; [|split; [lia | split; intros; [discriminate|contradiction]]].
    unfold maskEmail at 1. rewrite includes_countAt, C. cbn [Nat.eqb negb].
    change ("anonymous@" +:+ d) with ("anonymous" +:+ String "@" d).
    rewrite split_append by reflexivity.
    rewrite (split_no_separator _ _ Hd). reflexivity.
Qed.

End Masking.

(** ** The check service: validation and dispatch *)

Section CheckPlans.
Import OptionMerger Query BaseService CheckService.

Lemma validateConfiguration_passes (apiKey : string) :
  validateConfiguration apiKey = None <-> apiKey <> EmptyString.
Proof.
  unfold validateConfiguration. destruct apiKey; cbn; split;
    congruence.
Qed.

Lemma existsb_isBlank (l : list string) :
  existsb isBlank l = false <-> Forall (fun a => isBlank a = false) l.
Proof.
  induction l as [|a l IH]; cbn [existsb].
  - split; [constructor | reflexivity].
  - rewrite orb_false_iff, IH. split.
    + intros [H1 H2]. constructor; assumption.
    + intros H. inversion H. auto.
Qed.

Lemma validateAddresses_passes (addresses : Addresses) :
  validateAddresses addresses = None <-> wellFormed addresses.
Proof.
  unfold validateAddresses, wellFormed. destruct addresses as [a|l].
  - destruct a as [|c rest]; [cbn; split; discriminate|].
    cbn [truthyString negb length Nat.eqb existsb].
    rewrite orb_false_r.
    destruct (isBlank (String c rest)); split; congruence.
  - destruct l as [|a l].
    + cbn. split; [discriminate | intros [H _]; congruence].
    + cbn [length Nat.eqb].
      destruct (existsb isBlank (a :: l)) eqn:E.
      * split; [discriminate|]. intros [_ H].
        apply existsb_isBlank in H. congruence.
      * split; [|reflexivity]. intros _. split; [discriminate|].
        apply existsb_isBlank. exact E.
Qed.

Lemma validateOptions_passes (options : ProxyCheckOptions) :
  (exists v, validateOptions options = inr v) <-> schemaAccepts options = true.
Proof.
  unfold validateOptions. destruct (schemaAccepts options); split.
  - reflexivity.
  - intros _. eexists. reflexivity.
  - intros (v & H). discriminate.
  - discriminate.
Qed.

Lemma processAddresses_processed (options : ProxyCheckOptions)
    (addresses : Addresses) :
  processAddresses addresses (isTrue (maskAddress options)) =
  match addresses with
  | One a => One (processed options a)
  | Many l => Many (map (processed options) l)
  end.
Proof.
  unfold processAddresses, processed.
  destruct (isTrue (maskAddress options)); cbn [negb].
  - reflexivity.
  - destruct addresses as [a|l]; [reflexivity|].
    rewrite map_id. reflexivity.
Qed.

(** A non-blank address is still a non-empty string after masking. *)
Lemma processed_truthy (options : ProxyCheckOptions) (a : string) :
  isBlank a = false -> truthyString (processed options a) = true.
Proof.
  intros H. unfold processed, maskEmail.
  assert (T : truthyString a = true) by (destruct a; [discriminate | reflexivity]).
  destruct (isTrue (maskAddress options)); [|exact T].
  destruct (includes "@" a); [|exact T].
  destruct (split "@" a) as [|x [|d rest]]; reflexivity.
Qed.

Lemma buildPostData_merged (options : ProxyCheckOptions)
    (addresses : option Addresses) :
  buildPostData (mergeCountryOptions options) addresses =
  buildPostData options addresses.
Proof.
  destruct (mergeCountryOptions_fields options)
    as (_ & _ & _ & _ & _ & Hq & Hc & _).
  cbv zeta in *. unfold buildPostData. rewrite Hq, Hc. reflexivity.
Qed.

(** What [checkAddresses] does on valid input. *)
Lemma planCheck_valid (apiKey : string) (addresses : Addresses)
    (options : ProxyCheckOptions) :
  apiKey <> EmptyString -> wellFormed addresses ->
  schemaAccepts options = true ->
  let query := buildQueryParams (mergeCountryOptions options) (Some apiKey) in
  planCheck apiKey addresses options =
  inr {| call :=
           match addresses with
           | One a => Get API_ENDPOINTS.CHECK (processed options a) query
           | Many l =>
               if (1 <? length l)%nat then
                 PostForm API_ENDPOINTS.CHECK query
                   (buildPostData options
                      (Some (Many (map (processed options) l))))
                   query
               else
                 Get API_ENDPOINTS.CHECK
                   (processed options (hd EmptyString l)) query
           end;
         blockingFor :=
           match addresses with
           | One a => Some (processed options a)
           | Many _ => None
           end;
         mergedOptions := mergeCountryOptions options |}.
Proof.
  intros Hk Ha Ho. cbv zeta. unfold planCheck.
  rewrite (proj2 (validateConfiguration_passes apiKey) Hk).
  rewrite (proj2 (validateAddresses_passes addresses) Ha).
  unfold validateOptions. rewrite Ho.
  rewrite processAddresses_processed, buildPostData_merged.
  destruct addresses as [a|l]; cbn [shouldUsePostMethod].
  - cbn in Ha. rewrite (processed_truthy options a Ha). reflexivity.
  - destruct Ha as [Hne Hall]. rewrite length_map.
    destruct (1 <? length l)%nat eqn:E; [reflexivity|].
    destruct l as [|a l]; [congruence|].
    inversion Hall as [|? ? Hb _]; subst.
    cbn [map head hd]. rewrite (processed_truthy options a Hb). reflexivity.
Qed.

(** X13.  [checkAddresses] reaches the network exactly when the client
    has an API key, every address holds a character that is not white
    space (and an array holds at least one address), and the options pass
    the schema; so its own "No address provided" error is never thrown. *)
Theorem planCheck_succeeds_iff (apiKey : string) (addresses : Addresses)
    (options : ProxyCheckOptions) :
  (exists plan, planCheck apiKey addresses options = inr plan) <->
  apiKey <> EmptyString /\ wellFormed addresses /\
  schemaAccepts options = true.
Proof.
  split.
  - intros (plan & H). unfold planCheck in H.
    destruct (validateConfiguration apiKey) eqn:E1; [discriminate|].
    destruct (validateAddresses addresses) eqn:E2; [discriminate|].
    destruct (validateOptions options) eqn:E3; [discriminate|].
    repeat split.
    + apply validateConfiguration_passes. exact E1.
    + apply validateAddresses_passes. exact E2.
    + apply validateOptions_passes. eexists. exact E3.
  - intros (Hk & Ha & Ho). eexists.
    apply (planCheck_valid apiKey addresses options Hk Ha Ho).
Qed.

Lemma planCheck_inversion (apiKey : string) (addresses : Addresses)
    (options : ProxyCheckOptions) (plan : CheckPlan) :
  planCheck apiKey addresses options = inr plan ->
  apiKey <> EmptyString /\ wellFormed addresses /\
  schemaAccepts options = true.
Proof.
  intros H. unfold planCheck in H.
  destruct (validateConfiguration apiKey) eqn:E1; [discriminate|].
  destruct (validateAddresses addresses) eqn:E2; [discriminate|].
  destruct (validateOptions options) eqn:E3; [discriminate|].
  repeat split.
  - apply validateConfiguration_passes. exact E1.
  - apply validateAddresses_passes. exact E2.
  - apply validateOptions_passes. eexists. exact E3.
Qed.

(** X14.  A batch of two or more addresses is sent as one [postForm]
    call whose [ips] field is the comma-joined list of the (masked)
    addresses; a single address, given as a string or as a one-element
    array, is sent as a [get] with the address in the path.  Both carry
    the same query parameters, built from the merged options and the
    client's key. *)
Theorem planCheck_dispatch (apiKey : string) (addresses : Addresses)
    (options : ProxyCheckOptions) (plan : CheckPlan) :
  planCheck apiKey addresses options = inr plan ->
  let query := buildQueryParams (mergeCountryOptions options) (Some apiKey) in
  match addresses with
  | One a => call plan = Get "v2/" (processed options a) query
  | Many [a] => call plan = Get "v2/" (processed options a) query
  | Many l =>
      exists tag,
        call plan =
        PostForm "v2/" query
          {| ips := Some (join (map (processed options) l)); tag := tag |}
          query
  end.
Proof.
  intros H. destruct (planCheck_inversion _ _ _ _ H) as (Hk & Ha & Ho).
  pose proof (planCheck_valid apiKey addresses options Hk Ha Ho) as V.
  cbv zeta in *. rewrite V in H. injection H as <-. cbn [call].
  destruct addresses as [a|[|a [|b l]]]; try reflexivity.
  - destruct Ha as [Hne _]. congruence.
  - cbn [length Nat.ltb Nat.leb]. unfold buildPostData.
    rewrite length_map. cbn [length Nat.ltb Nat.leb].
    eexists. reflexivity.
Qed.

Lemma planCheck_dispatch_witness :
  exists plan tag,
    planCheck "k" (Many ["a@b.c"; "1.2.3.4"]) maskingOptions = inr plan /\
    call plan =
    PostForm "v2/"
      (buildQueryParams (mergeCountryOptions maskingOptions) (Some "k"))
      {| ips := Some "anonymous@b.c,1.2.3.4"; tag := tag |}
      (buildQueryParams (mergeCountryOptions maskingOptions) (Some "k")).
Proof.
  destruct (planCheck "k" (Many ["a@b.c"; "1.2.3.4"]) maskingOptions)
    as [e|plan] eqn:E; [vm_compute in E; discriminate|].
  destruct (planCheck_dispatch _ _ _ _ E) as (tag & H).
  exists plan, tag. split; [reflexivity | exact H].
Defined.

(** X15.  An address given as a string and the same address given as a
    one-element array make the same call, but only the string form gets a
    blocking verdict; the verdict is looked up under the address as it
    was sent, that is after masking. *)
Theorem single_element_array_gets_no_verdict (apiKey a : string)
    (options : ProxyCheckOptions) (plan : CheckPlan) :
  planCheck apiKey (One a) options = inr plan ->
  blockingFor plan = Some (processed options a) /\
  (exists query, call plan = Get "v2/" (processed options a) query) /\
  planCheck apiKey (Many [a]) options =
  inr {| call := call plan; blockingFor := None;
         mergedOptions := mergedOptions plan |}.
Proof.
  intros H. destruct (planCheck_inversion _ _ _ _ H) as (Hk & Ha & Ho).
  pose proof (planCheck_valid apiKey (One a) options Hk Ha Ho) as V.
  cbv zeta in V. rewrite V in H. injection H as <-. cbn [call blockingFor mergedOptions].
  split; [reflexivity|]. split; [eexists; reflexivity|].
  assert (Ha' : wellFormed (Many [a])).
  { split; [discriminate|]. constructor; [exact Ha | constructor]. }
  rewrite (planCheck_valid apiKey (Many [a]) options Hk Ha' Ho).
  reflexivity.
Qed.

Lemma single_element_array_gets_no_verdict_witness :
  exists plan,
    planCheck "k" (One "a@b.c") maskingOptions = inr plan /\
    blockingFor plan = Some "anonymous@b.c" /\
    planCheck "k" (Many ["a@b.c"]) maskingOptions =
    inr {| call := call plan; blockingFor := None;
           mergedOptions := mergedOptions plan |}.
Proof.
  destruct (planCheck "k" (One "a@b.c") maskingOptions)
    as [e|plan] eqn:E; [vm_compute in E; discriminate|].
  destruct (single_element_array_gets_no_verdict _ _ _ _ E) as (H1 & _ & H3).
  exists plan. split; [reflexivity|]. split; [exact H1 | exact H3].
Defined.

End CheckPlans.

(** ** The blocking verdict *)

Section BlockingVerdict.
Import OptionMerger CheckService.

(** X16.  The verdict is [yes] exactly when a reason is given. *)
Theorem addBlockingLogic_reason (result : option AddressCheckResult)
    (address : string) (options : ProxyCheckOptions) :
  fst (addBlockingLogic result address options) = BlockYes <->
  snd (addBlockingLogic result address options) <> ReasonNa.
Proof.
  unfold addBlockingLogic.
  repeat case_match; subst; cbn [fst snd]; split; intros H;
    try discriminate; try congruence; try reflexivity;
    repeat match goal with
    | E : (_, _) = (_, _) |- _ => injection E as ? ?; subst
    | E : (if ?b then _ else _) = _ |- _ => destruct b
    end; try discriminate; try congruence.
Qed.

(** X17.  Outside the disposable-email path, a result without a country
    gives the verdict [na], even for a detected proxy. *)
Theorem missing_country_gives_na (result : AddressCheckResult)
    (address : string) (options : ProxyCheckOptions) :
  includes "@" address = false \/ disposable result = None ->
  country result = None \/ country result = Some EmptyString ->
  addBlockingLogic (Some result) address options = (BlockNa, ReasonNa).
Proof.
  intros Hpath Hc. unfold addBlockingLogic.
  assert (E : (if includes "@" address then disposable result else None) = None).
  { destruct Hpath as [-> | ->]; [reflexivity|].
    destruct (includes "@" address); reflexivity. }
  rewrite E. destruct Hc as [-> | ->]; reflexivity.
Qed.

Lemma missing_country_gives_na_witness :
  addBlockingLogic
    (Some (mkResult (Some "yes") (Some "VPN") None None None)) "1.2.3.4"
    noOptions
  = (BlockNa, ReasonNa).
Proof.
  apply missing_country_gives_na; left; reflexivity.
Defined.

(** X18.  Outside the disposable-email path, an address whose country
    name or ISO code is on the allow list is never blocked, whatever was
    detected and whatever the block list holds. *)
Theorem allowed_country_is_never_blocked (result : AddressCheckResult)
    (address countryName : string) (options : ProxyCheckOptions) :
  includes "@" address = false \/ disposable result = None ->
  country result = Some countryName -> countryName <> EmptyString ->
  countryListed (allowedCountries options) countryName (isocode result) = true ->
  addBlockingLogic (Some result) address options = (BlockNo, ReasonNa).
Proof.
  intros Hpath Hc Hne Hallowed. unfold addBlockingLogic.
  assert (E : (if includes "@" address then disposable result else None) = None).
  { destruct Hpath as [-> | ->]; [reflexivity|].
    destruct (includes "@" address); reflexivity. }
  rewrite E, Hc, Hallowed.
  destruct countryName; [congruence|]. cbn [truthyString negb].
  destruct (bool_decide (proxy result = Some "yes"));
    [destruct (bool_decide (type result = Some "VPN")); reflexivity|].
  destruct (countryListed (blockedCountries options) _ _); reflexivity.
Qed.

Lemma allowed_country_is_never_blocked_witness :
  addBlockingLogic
    (Some (mkResult (Some "yes") (Some "VPN") (Some "Sweden") (Some "SE") None))
    "1.2.3.4"
    (mkOptions None None (Some ["SE"]) (Some ["Sweden"]) None None None None
       None None None None)
  = (BlockNo, ReasonNa).
Proof.
  apply (allowed_country_is_never_blocked _ _ "Sweden");
    [left; reflexivity | reflexivity | discriminate | vm_compute; reflexivity].
Defined.

(** X19.  Outside the disposable-email path, an address that is not a
    detected proxy and has a country is blocked exactly when the block
    list names its country and the allow list does not; the reason is
    then [country]. *)
Theorem clean_address_verdict (result : AddressCheckResult)
    (address countryName : string) (options : ProxyCheckOptions) :
  includes "@" address = false \/ disposable result = None ->
  proxy result <> Some "yes" ->
  country result = Some countryName -> countryName <> EmptyString ->
  addBlockingLogic (Some result) address options =
  if countryListed (blockedCountries options) countryName (isocode result) &&
     negb (countryListed (allowedCountries options) countryName (isocode result))
  then (BlockYes, ReasonCountry) else (BlockNo, ReasonNa).
Proof.
  intros Hpath Hp Hc Hne. unfold addBlockingLogic.
  assert (E : (if includes "@" address then disposable result else None) = None).
  { destruct Hpath as [-> | ->]; [reflexivity|].
    destruct (includes "@" address); reflexivity. }
  rewrite E, Hc.
  destruct countryName; [congruence|]. cbn [truthyString negb].
  rewrite bool_decide_eq_false_2 by exact Hp.
  destruct (countryListed (blockedCountries options) _ _);
    destruct (countryListed (allowedCountries options) _ _); reflexivity.
Qed.

Lemma clean_address_verdict_witness :
  addBlockingLogic
    (Some (mkResult (Some "no") None (Some "Sweden") (Some "SE") None))
    "1.2.3.4"
    (mkOptions None None None (Some ["SE"]) None None None None
       None None None None)
  = (BlockYes, ReasonCountry).
Proof.
  exact (clean_address_verdict
           (mkResult (Some "no") None (Some "Sweden") (Some "SE") None)
           "1.2.3.4" "Sweden"
           (mkOptions None None None (Some ["SE"]) None None None None
              None None None None)
           (or_introl eq_refl) ltac:(discriminate) eq_refl ltac:(discriminate)).
Defined.

End BlockingVerdict.


(** * The stats service *)

Section Stats.
Import BaseService StatsService.
Local Open Scope Q_scope.

Lemma isInteger_inject (x : Q) (z : Z) : x == inject_Z z -> isInteger x = true.
Proof.
  intros H. unfold isInteger. apply Qeq_bool_iff.
  rewrite H at 1. rewrite Qfloor_Z. symmetry. exact H.
Qed.

Lemma pageOffset_integer (page pageSize : Z) :
  (Z.abs (page - 1) < 2 ^ 53)%Z ->
  (Z.abs ((page - 1) * pageSize) < 2 ^ 53)%Z ->
  pageOffset (inject_Z page) (inject_Z pageSize)
  == inject_Z ((page - 1) * pageSize).
Proof.
  intros H1 H2. unfold pageOffset.
  assert (E1 : Double.fl (inject_Z page - 1) == inject_Z (page - 1)).
  { rewrite <- (fl_integer (page - 1) H1). apply fl_comp.
    unfold Z.sub. rewrite inject_Z_plus. reflexivity. }
  rewrite <- (fl_integer _ H2). apply fl_comp.
  rewrite E1, inject_Z_mult. reflexivity.
Qed.


Lemma Qle_bool_false (x y : Q) : Qle_bool x y = false <-> y < x.
Proof.
  split.
  - intros H. apply Qnot_le_lt. intros L. apply Qle_bool_iff in L. congruence.
  - intros H. destruct (Qle_bool x y) eqn:E; [|reflexivity].
    apply Qle_bool_iff in E. apply Qlt_not_le in H. contradiction.
Qed.

Lemma validateLimit_passes (l : Q) :
  (limitOk l -> validateLimit l = inr l) /\
  (forall v, validateLimit l = inr v -> limitOk l).
Proof.
  unfold validateLimit, limitOk. split.
  - intros (Hi & H1 & H2). rewrite Hi.
    rewrite (proj2 (Qle_bool_iff _ _) H1), (proj2 (Qle_bool_iff _ _) H2).
    reflexivity.
  - intros v H. destruct (isInteger l); [|discriminate].
    destruct (Qle_bool 1 l) eqn:E1; [|discriminate].
    destruct (Qle_bool l 1000) eqn:E2; [|discriminate].
    apply Qle_bool_iff in E1, E2. auto.
Qed.

Lemma validateOffset_passes (o : Q) :
  (offsetOk o -> validateOffset o = inr o) /\
  (forall v, validateOffset o = inr v -> offsetOk o).
Proof.
  unfold validateOffset, offsetOk. split.
  - intros (Hi & H1). rewrite Hi, (proj2 (Qle_bool_iff _ _) H1). reflexivity.
  - intros v H. destruct (isInteger o); [|discriminate].
    destruct (Qle_bool 0 o) eqn:E1; [|discriminate].
    apply Qle_bool_iff in E1. auto.
Qed.

Lemma orString_same (s : string) : orString (Some s) s = s.
Proof. destruct s; reflexivity. Qed.

(** What [getStats] does with arguments that pass. *)
Lemma getStats_valid (apiKey : string) (statType : StatType) (l o : Q) :
  apiKey <> EmptyString -> limitOk l -> offsetOk o ->
  getStats apiKey statType (Some l) (Some o) =
  inr {| endpoint := "dashboard/export/" +:+ statSelection statType +:+ "/";
         query :=
           {| key := apiKey;
              json := match statType with Usage => None | _ => Some 1%Z end;
              limit := match statType with Detections => Some l | _ => None end;
              offset := match statType with Detections => Some o | _ => None end
           |} |}.
Proof.
  intros Hk Hl Ho. unfold getStats.
  destruct apiKey as [|c k]; [congruence|].
  cbn [validateConfiguration truthyString negb].
  destruct statType; cbn [validated];
    try rewrite (proj1 (validateLimit_passes l) Hl);
    try rewrite (proj1 (validateOffset_passes o) Ho);
    unfold schemaAccepts;
    destruct Hl as (_ & L1 & L2); destruct Ho as (_ & O1);
    try rewrite (proj2 (Qle_bool_iff _ _) L2);
    try rewrite (proj2 (Qle_bool_iff _ _) O1);
    try (rewrite (proj2 (Qle_bool_false l 0)) by lra);
    reflexivity.
Qed.

Lemma getStats_inversion (apiKey : string) (statType : StatType)
    (l o : Q) (call : StatsCall) :
  getStats apiKey statType (Some l) (Some o) = inr call ->
  apiKey <> EmptyString /\ (statType <> Usage -> limitOk l /\ offsetOk o).
Proof.
  unfold getStats. destruct apiKey as [|c k]; [discriminate|].
  cbn [validateConfiguration truthyString negb]. intros H.
  split; [discriminate|]. intros Hu.
  destruct statType; [| |congruence]; cbn [validated] in H;
    destruct (validateLimit l) eqn:E1; try discriminate;
    destruct (validateOffset o) eqn:E2; try discriminate;
    (split; [eapply validateLimit_passes | eapply validateOffset_passes]; eauto).
Qed.

(** X20.  [getDetections] and [getQueries] reach the network exactly
    when the client has an API key, the limit is an integer from 1 to
    1000 and the offset is a natural number; the schema check that
    follows the two validations never fails. *)
Theorem getStats_succeeds_iff (apiKey : string) (limit offset : option Q) :
  let l := default 100 limit in
  let o := default 0 offset in
  ((exists call, getDetections apiKey limit offset = inr call) <->
   apiKey <> EmptyString /\ limitOk l /\ offsetOk o) /\
  ((exists call, getQueries apiKey limit offset = inr call) <->
   apiKey <> EmptyString /\ limitOk l /\ offsetOk o).
Proof.
  cbv zeta. unfold getDetections, getQueries. split; split.
  - intros (call & H). apply getStats_inversion in H.
    destruct H as (Hk & H). destruct H; [discriminate|]. auto.
  - intros (Hk & Hl & Ho). eexists. apply getStats_valid; assumption.
  - intros (call & H). apply getStats_inversion in H.
    destruct H as (Hk & H). destruct H; [discriminate|]. auto.
  - intros (Hk & Hl & Ho). eexists. apply getStats_valid; assumption.
Qed.

(** X21.  The limit and the offset given to [getQueries] are validated
    but never sent: every accepted call makes the same request, so the
    pages of [getQueriesPaginated] are all the same request. *)
Theorem queries_ignore_pagination (apiKey : string)
    (limit offset : option Q) (call : StatsCall) :
  getQueries apiKey limit offset = inr call ->
  call = {| endpoint := "dashboard/export/queries/";
            query := {| key := apiKey; json := Some 1%Z;
                        limit := None; offset := None |} |}.
Proof.
  unfold getQueries. intros H.
  destruct (getStats_inversion _ _ _ _ _ H) as (Hk & Hv).
  destruct Hv as [Hl Ho]; [discriminate|].
  rewrite (getStats_valid apiKey Queries _ _ Hk Hl Ho) in H.
  injection H as <-. reflexivity.
Qed.

Lemma queries_ignore_pagination_witness :
  getQueriesPaginated "k" (Some 7) (Some 25) =
  inr {| endpoint := "dashboard/export/queries/";
         query := {| key := "k"; json := Some 1%Z;
                     limit := None; offset := None |} |}.
Proof.
  destruct (getQueriesPaginated "k" (Some 7) (Some 25)) as [e|call] eqn:E;
    [vm_compute in E; discriminate|].
  f_equal. exact (queries_ignore_pagination "k" _ _ call E).
Defined.

(** X22.  Page [page] of size [pageSize] of the detections asks for
    [pageSize] rows from row [(page - 1) * pageSize] on, so consecutive
    pages tile the export. *)
Theorem getDetectionsPaginated_pages (apiKey : string) (page pageSize : Z) :
  apiKey <> EmptyString ->
  (1 <= pageSize <= 1000)%Z -> (1 <= page < 2 ^ 43)%Z ->
  exists o,
    getDetectionsPaginated apiKey (Some (inject_Z page))
      (Some (inject_Z pageSize)) =
    inr {| endpoint := "dashboard/export/detections/";
           query := {| key := apiKey; json := Some 1%Z;
                       limit := Some (inject_Z pageSize);
                       offset := Some o |} |} /\
    o == inject_Z ((page - 1) * pageSize).
Proof.
  intros Hk Hs Hp.
  assert (B : (0 <= (page - 1) * pageSize < 2 ^ 53)%Z).
  { change (2 ^ 53)%Z with (2 ^ 43 * 1024)%Z. nia. }
  assert (E : pageOffset (inject_Z page) (inject_Z pageSize)
              == inject_Z ((page - 1) * pageSize)).
  { apply pageOffset_integer; [|lia].
    assert (2 ^ 43 < 2 ^ 53)%Z by reflexivity. lia. }
  exists (pageOffset (inject_Z page) (inject_Z pageSize)).
  split; [|exact E].
  unfold getDetectionsPaginated, getDetections. cbn [default].
  apply (getStats_valid apiKey Detections); [exact Hk | |].
  - split; [apply (isInteger_inject _ pageSize); reflexivity|].
    change 1 with (inject_Z 1). change 1000 with (inject_Z 1000).
    rewrite <- !Zle_Qle. lia.
  - split; [apply (isInteger_inject _ _ E)|].
    rewrite E. change 0 with (inject_Z 0). rewrite <- Zle_Qle. lia.
Qed.

Lemma getDetectionsPaginated_pages_witness :
  exists o,
    getDetectionsPaginated "k" (Some 3) (Some 25) =
    inr {| endpoint := "dashboard/export/detections/";
           query := {| key := "k"; json := Some 1%Z;
                       limit := Some 25; offset := Some o |} |} /\
    o == 50.
Proof.
  apply (getDetectionsPaginated_pages "k" 3 25);
    [discriminate | lia | split; [lia | reflexivity]].
Defined.

End Stats.

(** * The listing and rules services *)

Section Listing.
Import OptionMerger BaseService ListingService.

Lemma replaceFirst_prefix (s : string) :
  replaceFirst "data=" EmptyString ("data=" +:+ s) = s.
Proof. destruct s; reflexivity. Qed.

Lemma validateEntries_passes (l : list string) :
  Forall (fun a => isBlank a = false) l -> validateEntries l = None.
Proof.
  intros H. unfold validateEntries.
  induction H as [|a l Ha _ IH]; [reflexivity|].
  cbn [existsb]. rewrite Ha. exact IH.
Qed.

(** X23.  A modification of a list with entries is one [postForm] call on
    [dashboard/lists/<action>/<list>/] whose only field, [data], holds
    the entries joined by CR LF: the round trip through
    ["data=" + ...] and [replace("data=", "")] leaves the joined entries
    as they are, and the serialized body reads back as that one field. *)
Theorem manageList_body (apiKey : string) (listType : ListType)
    (action : ListAction) (l : list string) :
  apiKey <> EmptyString -> action <> ListGet -> l <> [] ->
  Forall (fun a => isBlank a = false) l ->
  exists data,
    manageList apiKey listType action (Some (Many l)) =
    inr (ListPostForm
           ("dashboard/lists/" +:+ listAction action +:+ "/" +:+
            listSelection listType +:+ "/") apiKey data) /\
    data = Some [("data", Some (String.concat CRLF l))] /\
    parseForm (postFormBody data) = [("data", String.concat CRLF l)].
Proof.
  intros Hk Ha Hl Hv. eexists. split; [|split; [reflexivity|]].
  - unfold manageList. destruct apiKey as [|c k]; [congruence|].
    cbn [validateConfiguration truthyString negb].
    destruct l as [|a l']; [congruence|].
    cbn [length Nat.ltb Nat.leb].
    rewrite (validateEntries_passes _ Hv).
    change (truthyString ("data=" +:+ String.concat CRLF (a :: l'))) with true.
    cbv iota. rewrite replaceFirst_prefix.
    destruct action; [reflexivity | reflexivity | reflexivity | congruence].
  - unfold postFormBody. apply parseForm_formToString.
Qed.

Lemma manageList_body_witness :
  exists data,
    manageList "k" Blacklist ListAdd (Some (Many ["1.2.3.4"; "data=x&y"])) =
    inr (ListPostForm "dashboard/lists/add/blacklist/" "k" data) /\
    data = Some [("data", Some (String.concat CRLF ["1.2.3.4"; "data=x&y"]))] /\
    parseForm (postFormBody data) =
    [("data", String.concat CRLF ["1.2.3.4"; "data=x&y"])].
Proof.
  apply (manageList_body "k" Blacklist ListAdd ["1.2.3.4"; "data=x&y"]);
    [discriminate | discriminate | discriminate | repeat constructor].
Defined.

(** X24.  Reading a list does not say which list: [getList] makes the
    same request for the whitelist and for the blacklist, and no entries
    given to a [get] change it. *)
Theorem getList_ignores_list_type (apiKey : string)
    (listType listType' : ListType) (entries entries' : option Addresses) :
  manageList apiKey listType ListGet entries =
  manageList apiKey listType' ListGet entries' /\
  (apiKey <> EmptyString ->
   getList apiKey listType = inr (ListGetCall "dashboard/lists/print/" apiKey)).
Proof.
  unfold getList, manageList. destruct apiKey as [|c k].
  - split; [reflexivity | congruence].
  - cbn [validateConfiguration truthyString negb].
    split; [|reflexivity].
    destruct entries as [[a|l]|], entries' as [[a'|l']|]; reflexivity.
Qed.

End Listing.

Section Rules.
Import BaseService RulesService OptionMerger.

Lemma wordChar_plain (c : ascii) (t : string) :
  isWordChar c = true ->
  isBlank (String c t) = false /\ Ascii.eqb c "&" = false /\
  Ascii.eqb c "=" = false /\
  formDecode (String c t) = String c (formDecode t).
Proof.
  intros H.
  destruct c as [[] [] [] [] [] [] [] []]; vm_compute in H;
    try discriminate H; repeat split;
    destruct t as [|d [|e t']]; reflexivity.
Qed.

Lemma wordChars_plain (s : string) :
  allWordChars s = true ->
  occurs "&" s = false /\ occurs "=" s = false /\ formDecode s = s.
Proof.
  induction s as [|c rest IH]; [repeat split|].
  cbn [allWordChars]. intros H. apply andb_true_iff in H as [Hc Hrest].
  destruct (IH Hrest) as (H1 & H2 & H3).
  destruct (wordChar_plain c rest Hc) as (_ & E1 & E2 & E3).
  cbn [occurs]. rewrite E1, E2, E3, H1, H2, H3. repeat split.
Qed.

Lemma parseForm_name (name : string) :
  allWordChars name = true ->
  parseForm ("name=" +:+ name) = [("name", name)].
Proof.
  intros H. destruct (wordChars_plain name H) as (H1 & H2 & H3).
  unfold parseForm.
  rewrite (split_no_separator "&" ("name=" +:+ name))
    by (rewrite occurs_append, H1; reflexivity).
  rewrite filter_cons, filter_nil.
  destruct (decide _) as [_|N]; [|exfalso; apply N; discriminate].
  cbn [map]. unfold parsePair.
  change ("name=" +:+ name) with ("name" +:+ String "=" name).
  rewrite split_append by reflexivity.
  rewrite (split_no_separator "=" name H2). rewrite H3. reflexivity.
Qed.

(** X26.  [deleteRule] reaches the network exactly when the client has
    an API key and the name is 1 to 50 letters, digits and underscores;
    the body is then [name=<name>], which reads back as that one field
    although it is not encoded. *)
Theorem deleteRule_request (apiKey name : string) :
  ((exists config, deleteRule apiKey name = inr config) <->
   apiKey <> EmptyString /\ name <> EmptyString /\
   allWordChars name = true /\ (String.length name <= 50)%nat) /\
  (forall config, deleteRule apiKey name = inr config ->
     endpoint config = "dashboard/rules/remove/" /\
     key config = apiKey /\
     data config = Some ("name=" +:+ name) /\
     parseForm ("name=" +:+ name) = [("name", name)]).
Proof.
  assert (V : validateRuleName name = None <->
              name <> EmptyString /\ allWordChars name = true /\
              (String.length name <= 50)%nat).
  { unfold validateRuleName. destruct name as [|c rest].
    - cbn. split; [discriminate | intros (N & _); congruence].
    - cbn [truthyString negb].
      destruct (allWordChars (String c rest)) eqn:W.
      + assert (B : isBlank (String c rest) = false).
        { cbn [allWordChars] in W. apply andb_true_iff in W as [Hc _].
          apply (wordChar_plain c rest Hc). }
        rewrite B. cbn [negb].
        destruct (Nat.ltb_spec 50 (String.length (String c rest))).
        * split; [discriminate | intros (_ & _ & L); lia].
        * split; [intros _; repeat split; [discriminate | lia] | reflexivity].
      + destruct (isBlank (String c rest));
          (split; [discriminate | intros (_ & F & _); discriminate]). }
  split.
  - unfold deleteRule, removeRule, manageRule. split.
    + intros (config & H).
      destruct (validateRuleName name) eqn:E; [discriminate|].
      destruct apiKey; [discriminate|].
      split; [discriminate | apply V; reflexivity].
    + intros (Hk & Hn). rewrite (proj2 V Hn).
      destruct apiKey; [congruence|]. eexists. reflexivity.
  - intros config H. unfold deleteRule, removeRule, manageRule in H.
    destruct (validateRuleName name) eqn:E; [discriminate|].
    destruct (proj1 V eq_refl) as (Hn & Hw & _).
    destruct apiKey as [|c k]; [discriminate|].
    cbn [validateConfiguration truthyString negb] in H.
    destruct name as [|d rest]; [congruence|].
    cbn [truthyString app length Nat.ltb Nat.leb] in H.
    injection H as <-. cbn [endpoint key data post].
    repeat split. apply parseForm_name. exact Hw.
Qed.

End Rules.

(** * The configuration manager *)

Section Configuration.
Import ConfigManager.

Lemma orString_truthy (a : option string) (d : string) :
  truthyString d = true -> truthyString (orString a d) = true.
Proof.
  intros H. unfold orString. destruct a as [s|]; [|exact H].
  destruct (truthyString s) eqn:E; [exact E | exact H].
Qed.

Lemma orString_some (s d : string) :
  truthyString s = true -> orString (Some s) d = s.
Proof. intros H. unfold orString. rewrite H. reflexivity. Qed.

Lemma orNumber_nonzero (a : option Z) (b : option JsNumber) (d : Z) :
  d <> 0 -> orNumber a b d <> 0.
Proof.
  intros H. unfold orNumber.
  destruct a as [z|]; [destruct (Z.eqb_spec z 0); [|assumption]|];
    (destruct b as [[|y]|]; [assumption | | assumption];
     destruct (Z.eqb_spec y 0); assumption).
Qed.

Lemma orNumber_some (z : Z) (b : option JsNumber) (d : Z) :
  z <> 0 -> orNumber (Some z) b d = z.
Proof.
  intros H. unfold orNumber. destruct (Z.eqb_spec z 0); [contradiction|].
  reflexivity.
Qed.

Lemma orNumberQ_nonzero (a : option Q) (b : option JsNumber) (d : Q) :
  ~ (d == 0)%Q -> ~ (orNumberQ a b d == 0)%Q.
Proof.
  intros H. unfold orNumberQ.
  assert (E : ~ (match b with
                 | Some (Int y) => if y =? 0 then d else inject_Z y
                 | _ => d
                 end == 0)%Q).
  { destruct b as [[|y]|]; [assumption | | assumption].
    destruct (Z.eqb_spec y 0) as [|N]; [assumption|].
    intros Q0. apply N. unfold Qeq in Q0. simpl in Q0. lia. }
  destruct a as [q|]; [|exact E].
  destruct (Qeq_bool q 0) eqn:B; [exact E|].
  intros Q0. apply Qeq_bool_iff in Q0. congruence.
Qed.

Lemma orNumberQ_some (q : Q) (b : option JsNumber) (d : Q) :
  ~ (q == 0)%Q -> orNumberQ (Some q) b d = q.
Proof.
  intros H. unfold orNumberQ. destruct (Qeq_bool q 0) eqn:B; [|reflexivity].
  apply Qeq_bool_iff in B. contradiction.
Qed.

(** Every field of a built configuration but the key is truthy. *)
Lemma buildConfig_truthy (userConfig : PartialConfig.t) (env : Environment) :
  truthyString (baseUrl (buildConfig userConfig env)) = true /\
  timeout (buildConfig userConfig env) <> 0 /\
  retries (buildConfig userConfig env) <> 0 /\
  ~ (retryDelay (buildConfig userConfig env) == 0)%Q /\
  truthyString (userAgent (buildConfig userConfig env)) = true.
Proof.
  unfold buildConfig. cbn [baseUrl timeout retries retryDelay userAgent].
  repeat split.
  - apply orString_truthy, orString_truthy. reflexivity.
  - apply orNumber_nonzero. discriminate.
  - apply orNumber_nonzero. discriminate.
  - apply orNumberQ_nonzero. discriminate.
  - apply orString_truthy. reflexivity.
Qed.

Lemma validateConfig_passes (config : Config) :
  validateConfig config = [] <->
  truthyString (apiKey config) = true /\ 0 < timeout config /\
  0 <= retries config /\ Qle_bool 0 (retryDelay config) = true.
Proof.
  unfold validateConfig.
  destruct (truthyString (apiKey config));
    destruct (Z.ltb_spec 0 (timeout config));
    destruct (Z.leb_spec 0 (retries config));
    destruct (Qle_bool 0 (retryDelay config));
    cbn [app]; split; try discriminate; auto;
    intros (H1 & H2 & H3 & H4); try discriminate; lia.
Qed.

(** X27.  No configuration, from the caller or from the environment,
    gives a client with [retries], [timeout] or [retryDelay] equal to 0:
    a zero falls through to the next source.  So the constructor succeeds
    exactly when a key is found and the three numbers are positive, and a
    client that exists retries at least once. *)
Theorem buildConfig_never_zero (userConfig : PartialConfig.t)
    (env : Environment) :
  let config := buildConfig userConfig env in
  (retries config <> 0 /\ timeout config <> 0 /\
   ~ (retryDelay config == 0)%Q) /\
  (new userConfig env = inr config <->
   apiKey config <> EmptyString /\ 0 < timeout config /\
   1 <= retries config /\ (0 < retryDelay config)%Q) /\
  (forall issues, new userConfig env = inl issues -> issues <> []).
Proof.
  cbv zeta.
  destruct (buildConfig_truthy userConfig env) as (_ & Ht & Hr & Hd & _).
  split; [auto|]. unfold new.
  set (config := buildConfig userConfig env) in *.
  pose proof (validateConfig_passes config) as V.
  destruct (validateConfig config) as [|issue rest].
  - split; [|intros issues H; discriminate].
    split; [intros _ | reflexivity].
    destruct (proj1 V eq_refl) as (H1 & H2 & H3 & H4).
    apply Qle_bool_iff in H4.
    repeat split; [destruct (apiKey config); [discriminate | discriminate]
                  | lia | lia |].
    apply Qle_lteq in H4 as [L|E]; [exact L|].
    exfalso. apply Hd. symmetry. exact E.
  - split; [|intros issues H; injection H as <-; discriminate].
    split; [discriminate|]. intros (H1 & H2 & H3 & H4).
    assert (N : issue :: rest = []); [|discriminate N].
    apply V. repeat split; [destruct (apiKey config); [congruence | reflexivity]
                           | lia | lia |].
    apply Qle_bool_iff, Qlt_le_weak, H4.
Qed.

(** X28.  The HTTP client that [ProxyCheckClient] builds works with the
    configuration the manager resolved: the constructor of [HttpClient]
    applies its defaults once more, and they change nothing. *)
Theorem HttpClient_agrees_with_ConfigManager
    (userConfig : PartialConfig.t) (env : Environment) :
  _config (newHttpClient (httpConfig (buildConfig userConfig env))) =
  buildConfig userConfig env.
Proof.
  destruct (buildConfig_truthy userConfig env) as (Hb & Ht & Hr & Hd & Hu).
  destruct (buildConfig userConfig env) as [b t r d tls ua k].
  cbn [baseUrl timeout retries retryDelay userAgent] in *.
  unfold newHttpClient, httpConfig.
  cbn [_config ClientConfig.apiKey ClientConfig.baseUrl ClientConfig.timeout
       ClientConfig.retries ClientConfig.retryDelay ClientConfig.tlsSecurity
       ClientConfig.userAgent baseUrl timeout retries retryDelay tlsSecurity
       userAgent apiKey default].
  rewrite (orString_some b _ Hb), (orString_some ua _ Hu).
  unfold orZ, orQ.
  destruct (Z.eqb_spec t 0); [contradiction|].
  destruct (Z.eqb_spec r 0); [contradiction|].
  destruct (Qeq_bool d 0) eqn:B;
    [apply Qeq_bool_iff in B; contradiction|].
  reflexivity.
Qed.

(** X29.  [updateConfig] leaves every field it is not given as it was,
    whatever the environment holds at the time of the update; for the key
    this needs a key to be there. *)
Theorem updateConfig_keeps_other_fields
    (userConfig updates : PartialConfig.t) (env env' : Environment) :
  let config := buildConfig userConfig env in
  let config' := fst (updateConfig config updates env') in
  (PartialConfig.baseUrl updates = None -> baseUrl config' = baseUrl config) /\
  (PartialConfig.timeout updates = None -> timeout config' = timeout config) /\
  (PartialConfig.retries updates = None -> retries config' = retries config) /\
  (PartialConfig.retryDelay updates = None ->
   retryDelay config' = retryDelay config) /\
  (PartialConfig.tlsSecurity updates = None ->
   tlsSecurity config' = tlsSecurity config) /\
  (PartialConfig.userAgent updates = None ->
   userAgent config' = userAgent config) /\
  (PartialConfig.apiKey updates = None -> apiKey config <> EmptyString ->
   apiKey config' = apiKey config).
Proof.
  cbv zeta.
  destruct (buildConfig_truthy userConfig env) as (Hb & Ht & Hr & Hd & Hu).
  set (config := buildConfig userConfig env) in *.
  unfold updateConfig. cbn [fst]. unfold buildConfig at 1 2 3 4 5 6 7.
  cbn [baseUrl timeout retries retryDelay tlsSecurity userAgent apiKey
       PartialConfig.baseUrl PartialConfig.timeout PartialConfig.retries
       PartialConfig.retryDelay PartialConfig.tlsSecurity
       PartialConfig.userAgent PartialConfig.apiKey].
  repeat split; intros ->; cbn [default].
  - apply orString_some, Hb.
  - apply orNumber_some, Ht.
  - apply orNumber_some, Hr.
  - apply orNumberQ_some, Hd.
  - reflexivity.
  - apply orString_some, Hu.
  - intros Hk. apply orString_some.
    destruct (apiKey config); [congruence | reflexivity].
Qed.

End Configuration.


(** * The retry helper of the services *)

Section ServiceRetryFacts.
Import ServiceRetry.

Variable requestFn : nat -> Thrown + JsData.
Variable rnd : nat -> Q.
Variable maxRetries : Z.
Variable baseDelay : Q.

Lemma retryLoop_spec (fuel : nat) :
  forall (attempt : Z) (lastError : Thrown) (p : Progress),
    0 <= attempt <= maxRetries ->
    maxRetries - attempt < Z.of_nat fuel ->
    let result := retryLoop requestFn rnd maxRetries baseDelay fuel attempt
                    lastError p in
    let p' := snd result in
    exists n : nat,
      made p' = (made p + S n)%nat /\
      Z.of_nat n <= maxRetries - attempt /\
      slept p' = (slept p ++
                  map (fun k => calculateDelay (attempt + Z.of_nat k) baseDelay
                                  (rnd (drawn p + k)%nat))
                    (seq 0 n))%list /\
      (forall k, (k < n)%nat -> exists e, requestFn (made p + k)%nat = inl e) /\
      match fst result with
      | Resolves body => requestFn (made p + n)%nat = inr body
      | Rejects error =>
          requestFn (made p + n)%nat = inl error /\
          Z.of_nat n = maxRetries - attempt
      | OutOfFuel => False
      end.
Proof.
  induction fuel as [|fuel IH]; intros attempt lastError p Ha Hf; [lia|].
  cbv zeta. cbn [retryLoop].
  destruct (Z.leb_spec attempt maxRetries) as [_|]; [|lia].
  destruct (requestFn (made p)) as [error|body] eqn:E.
  - destruct (Z.eqb_spec attempt maxRetries) as [->|Hne].
    + exists O. cbn [fst snd made slept seq map].
      rewrite Nat.add_0_r, app_nil_r.
      repeat split; [lia | lia | intros k Hk; lia | exact E | lia].
    + specialize (IH (attempt + 1) error
                    {| made := S (made p); drawn := S (drawn p);
                       slept := (slept p ++
                                 [calculateDelay attempt baseDelay
                                    (rnd (drawn p))])%list |}).
      cbv zeta in IH. cbn [made drawn slept] in *.
      destruct IH as (n & H1 & H2 & H3 & H4 & H5); [lia | lia |].
      exists (S n). rewrite H1, H3.
      split; [lia|]. split; [lia|]. split; [|split].
      * rewrite <- app_assoc. f_equal. cbn [seq map app].
        rewrite Z.add_0_r, Nat.add_0_r. f_equal.
        rewrite <- seq_shift, map_map. apply map_ext. intros k.
        f_equal; [lia | f_equal; lia].
      * intros k Hk. destruct k as [|k].
        -- rewrite Nat.add_0_r. eexists. exact E.
        -- destruct (H4 k) as (e & He); [lia|].
           exists e. rewrite <- He. f_equal. lia.
      * replace (made p + S n)%nat with (S (made p) + n)%nat by lia.
        destruct (fst (retryLoop _ _ _ _ _ _ _ _)); [exact H5 | | exact H5].
        destruct H5 as [H5 H6]. split; [exact H5 | lia].
  - exists O. cbn [fst snd made slept seq map].
    rewrite Nat.add_0_r, app_nil_r.
    repeat split; [lia | lia | intros k Hk; lia | exact E].
Qed.

End ServiceRetryFacts.

(** X30.  With a bound [maxRetries >= 0], [retryRequest] calls the
    request function until a call succeeds, at most [maxRetries + 1]
    times, whatever the kind of the failures; it sleeps once between two
    calls, for the delay of the engine's backoff formula; it resolves with
    the first success and otherwise rejects with the failure of call
    number [maxRetries + 1]. *)
Theorem retryRequest_attempts (requestFn : nat -> Thrown + JsData)
    (rnd : nat -> Q) (maxRetries : Z) (baseDelay : Q) :
  0 <= maxRetries ->
  let result := ServiceRetry.retryRequest requestFn rnd (Some maxRetries)
                  (Some baseDelay) in
  let calls := ServiceRetry.made (snd result) in
  (1 <= calls)%nat /\ Z.of_nat calls <= maxRetries + 1 /\
  ServiceRetry.slept (snd result) =
    map (fun k => calculateDelay (Z.of_nat k) baseDelay (rnd k))
      (seq 0 (calls - 1)) /\
  (forall k, (k < calls - 1)%nat -> exists e, requestFn k = inl e) /\
  match fst result with
  | Resolves body => requestFn (calls - 1)%nat = inr body
  | Rejects error =>
      requestFn (calls - 1)%nat = inl error /\ Z.of_nat calls = maxRetries + 1
  | OutOfFuel => False
  end.
Proof.
  intros Hm. cbv zeta.
  change (ServiceRetry.retryRequest requestFn rnd (Some maxRetries)
            (Some baseDelay))
    with (ServiceRetry.retryLoop requestFn rnd maxRetries baseDelay
            (Z.to_nat (maxRetries + 2)) 0 ThUndefined
            {| ServiceRetry.made := O; ServiceRetry.drawn := O;
               ServiceRetry.slept := [] |}).
  pose proof (retryLoop_spec requestFn rnd maxRetries baseDelay
                (Z.to_nat (maxRetries + 2)) 0 ThUndefined
                {| ServiceRetry.made := O; ServiceRetry.drawn := O;
                   ServiceRetry.slept := [] |}) as S.
  cbv zeta in S. cbn [ServiceRetry.made ServiceRetry.drawn ServiceRetry.slept] in S.
  destruct S as (n & H1 & H2 & H3 & H4 & H5); [lia | lia |].
  rewrite H1. cbn [Nat.add]. replace (S n - 1)%nat with n by lia.
  split; [lia|]. split; [lia|]. split; [|split].
  - rewrite H3. cbn [app]. apply map_ext. intros k.
    rewrite Z.add_0_l. reflexivity.
  - exact H4.
  - destruct (fst _); [exact H5 | | exact H5].
    destruct H5 as [H5 H6]. split; [exact H5 | lia].
Qed.

Lemma retryRequest_attempts_witness :
  ServiceRetry.made
    (snd (ServiceRetry.retryRequest
            (fun _ => inl (ThError (ValidationError "bad" None None)))
            (fun _ => 0%Q) (Some 2) (Some 1000%Q))) = 3%nat.
Proof.
  pose proof (retryRequest_attempts
                (fun _ => inl (ThError (ValidationError "bad" None None)))
                (fun _ => 0%Q) 2 1000%Q ltac:(lia)) as H.
  cbv zeta in H. destruct H as (_ & _ & _ & _ & H).
  destruct (fst _) in H; [discriminate H | | contradiction].
  destruct H as [_ H]. lia.
Defined.
